(** * Entity resolution engine of the SAM.gov UEI matcher

    A shallow embedding of the webhook module (normalizer, Dice scorer,
    candidate retrieval chain, classifier, deduplicator) and the
    properties its specification states about them.

    Modelling conventions.
    - A JavaScript string is a Rocq [string]; the character-level passes
      work on its [list ascii].  Characters are ASCII: a byte above 127 is
      neither a letter, a digit, an underscore nor white space, and
      [toLowerCase] leaves it alone.
    - A JavaScript number that holds a score is an exact rational [Q]; a
      timestamp or a count is an integer.
    - [Set<string>] is [gset string], [Map<string, V>] is [gmap string V].
    - [undefined] is [None]; truthiness is written out. *)

From Stdlib Require Import Ascii String QArith Qminmax Lqa.
From stdpp Require Import gmap gmultiset strings list sorting pretty.

#[local] Set Warnings "-clear-no-such-hyp".
Local Open Scope Z_scope.

(** ** Characters and the regular-expression classes used by the source *)

Module Chars.

Definition code (c : ascii) : N := N_of_ascii c.

Definition between (lo hi : N) (c : ascii) : bool :=
  ((lo <=? code c) && (code c <=? hi))%N.

Definition is_upper : ascii -> bool := between 65 90.
Definition is_lower : ascii -> bool := between 97 122.
Definition is_digit : ascii -> bool := between 48 57.

(** [\w] *)
Definition is_word (c : ascii) : bool :=
  is_upper c || is_lower c || is_digit c || (code c =? 95)%N.

(** [\s], and the characters [trim] removes *)
Definition is_space (c : ascii) : bool :=
  between 9 13 c || (code c =? 32)%N.

(** [[a-z0-9]] *)
Definition is_lower_alnum (c : ascii) : bool := is_lower c || is_digit c.

Definition to_lower (c : ascii) : ascii :=
  if is_upper c then ascii_of_N (code c + 32) else c.

Definition to_upper (c : ascii) : ascii :=
  if is_lower c then ascii_of_N (code c - 32) else c.

Definition space : ascii := ascii_of_N 32.
Definition period : ascii := ascii_of_N 46.

End Chars.

Import Chars.

Definition chars (s : string) : list ascii := list_ascii_of_string s.
Definition text (l : list ascii) : string := string_of_list_ascii l.

(** [s.toLowerCase()] *)
Definition toLowerCase (l : list ascii) : list ascii := map to_lower l.

(** ** Name normalizer *)

Definition legal_suffixes : list (list ascii) :=
  map chars ["inc"; "incorporated"; "llc"; "ltd"; "limited"; "corp";
             "corporation"; "co"; "company"]%string.

(** Does a maximal run of word characters match the alternation
    [(inc|incorporated|...|company)] under the [i] flag? *)
Definition is_legal_suffix (tok : list ascii) : bool :=
  bool_decide (toLowerCase tok ∈ legal_suffixes).

(** [.replace(/\b(inc|...|company)\b\.?/gi, '')].  Every alternative is made
    of word characters and is fenced by [\b] on both sides, so a match is
    exactly a maximal run of word characters; [cur] is the run being read.
    A matched run is dropped together with a period that follows it. *)
Fixpoint strip_from (cur : list ascii) (s : list ascii) : list ascii :=
  match s with
  | [] => if is_legal_suffix cur then [] else cur
  | c :: s' =>
      if is_word c then strip_from (cur ++ [c]) s'
      else if is_legal_suffix cur then
             if bool_decide (c = period) then strip_from [] s'
             else c :: strip_from [] s'
           else cur ++ c :: strip_from [] s'
  end.

Definition strip_suffixes (s : list ascii) : list ascii := strip_from [] s.

(** [.replace(/[^\w\s]/g, '')] *)
Definition strip_punct (s : list ascii) : list ascii :=
  filter (fun c => is_word c || is_space c = true) s.

(** [.replace(/\s+/g, ' ')]; [in_ws] says that the previous character
    belonged to the run of white space already replaced. *)
Fixpoint collapse_from (in_ws : bool) (s : list ascii) : list ascii :=
  match s with
  | [] => []
  | c :: s' =>
      if is_space c then
        if in_ws then collapse_from true s' else space :: collapse_from true s'
      else c :: collapse_from false s'
  end.

Definition collapse_ws (s : list ascii) : list ascii := collapse_from false s.

Fixpoint trim_start (s : list ascii) : list ascii :=
  match s with
  | [] => []
  | c :: s' => if is_space c then trim_start s' else s
  end.

Fixpoint trim_end (s : list ascii) : list ascii :=
  match s with
  | [] => []
  | c :: s' =>
      match trim_end s' with
      | [] => if is_space c then [] else [c]
      | t => c :: t
      end
  end.

(** [.trim()] *)
Definition trim (s : list ascii) : list ascii := trim_end (trim_start s).

Definition normalize_chars (s : list ascii) : list ascii :=
  trim (collapse_ws (strip_punct (strip_suffixes (toLowerCase s)))).

Definition normalizeCompanyName (name : string) : string :=
  text (normalize_chars (chars name)).

(** The words of a string: its maximal runs of word characters, which are
    what [\b...\b] can delimit.  [cur] is the run being read. *)
Fixpoint words_from (cur : list ascii) (s : list ascii) : list (list ascii) :=
  match s with
  | [] => [cur]
  | c :: s' =>
      if is_word c then words_from (cur ++ [c]) s' else cur :: words_from [] s'
  end.

Definition words (s : list ascii) : list (list ascii) :=
  filter (fun w => w <> []) (words_from [] s).

(** The shape of a normalized name: white space occurs only as single
    space characters ([in_ws] says that the previous character was one),
    and never in front. *)
Fixpoint single_spaced (in_ws : bool) (s : list ascii) : bool :=
  match s with
  | [] => true
  | c :: s' =>
      if is_space c
      then bool_decide (c = space) && negb in_ws && single_spaced true s'
      else single_spaced false s'
  end.

Definition starts_clean (s : list ascii) : Prop :=
  match s with
  | [] => True
  | c :: _ => is_space c = false
  end.

(** ** Similarity scorer *)

(** [s.substring(i, i + 2)] for [i] from [0] to [s.length - 2] *)
Fixpoint bigrams (s : list ascii) : list string :=
  match s with
  | a :: ((b :: _) as s') => text [a; b] :: bigrams s'
  | _ => []
  end.

(** [str.toLowerCase().replace(/[^a-z0-9]/g, '')] *)
Definition fold_alnum (str : string) : list ascii :=
  filter (fun c => is_lower_alnum c = true) (toLowerCase (chars str)).

(** The second loop of [diceCoefficient]: [bigrams1] loses every bigram
    that has been matched. *)
Fixpoint count_matches (bs : list string) (bigrams1 : gset string)
    (matches : nat) : nat :=
  match bs with
  | [] => matches
  | bigram :: bs' =>
      if decide (bigram ∈ bigrams1)
      then count_matches bs' (bigrams1 ∖ {[bigram]}) (S matches)
      else count_matches bs' bigrams1 matches
  end.

Definition diceCoefficient (str1 str2 : string) : Q :=
  let s1 := fold_alnum str1 in
  let s2 := fold_alnum str2 in
  if decide (s1 = s2) then 1%Q
  else if (length s1 <? 2)%nat || (length s2 <? 2)%nat then 0%Q
  else
    let bigrams1 : gset string := list_to_set (bigrams s1) in
    let matches := count_matches (bigrams s2) bigrams1 0 in
    (inject_Z (2 * Z.of_nat matches)
       / inject_Z (Z.of_nat (length s1) + Z.of_nat (length s2) - 2))%Q.

(** The bigrams of a string as a set, duplicates merged. *)
Definition distinct_bigrams (s : list ascii) : gset string :=
  list_to_set (bigrams s).

(** The scorer as the specification words it: the bigrams of each string
    form a multiset, and a common bigram counts once per occurrence that
    both strings have.  Used only for comparison with [diceCoefficient]. *)
Definition bigram_multiset (s : list ascii) : gmultiset string :=
  list_to_set_disj (bigrams s).

Definition multiset_dice_formula (a b : string) : Q :=
  let s1 := fold_alnum a in
  let s2 := fold_alnum b in
  (inject_Z (2 * Z.of_nat (size (bigram_multiset s1 ∩ bigram_multiset s2)))
     / inject_Z (Z.of_nat (length s1) + Z.of_nat (length s2) - 2))%Q.

(** ** Registry records *)

(** Truthiness of an optional string, [a || b], and [a || 'literal']. *)
Definition truthy (o : option string) : bool :=
  match o with
  | Some s => negb (String.eqb s "")
  | None => false
  end.

Definition or_else (a b : option string) : option string :=
  if truthy a then a else b.

Definition or_default (a : option string) (d : string) : string :=
  match a with
  | Some s => if String.eqb s "" then d else s
  | None => d
  end.

Record BusinessType := {
  businessTypeDesc : option string;
  businessType : option string }.

Record Naics := { naics_naicsCode : option string }.

Record SbaType := {
  sbaBusinessTypeDesc : option string;
  sbaBusinessType : option string }.

(** A raw record as the registry (or the local table) returns it.  The
    source reads it through optional chains; a missing sub-object is a
    record all of whose fields are missing, so the paths are flattened:
    [reg_x] is [raw.entityRegistration.x], [addr_x] is
    [raw.coreData.physicalAddress.x], [top_x] is [raw.x]. *)
Record RawEntity := {
  reg_ueiSAM : option string;
  reg_legalBusinessName : option string;
  reg_dbaName : option string;
  reg_cageCode : option string;
  reg_registrationStatus : option string;
  reg_registrationExpirationDate : option string;
  top_ueiSAM : option string;
  top_legalBusinessName : option string;
  addr_addressLine1 : option string;
  addr_city : option string;
  addr_stateOrProvinceCode : option string;
  addr_zipCode : option string;
  businessTypeList : list BusinessType;
  naicsList : list Naics;
  sbaBusinessTypeList : list SbaType }.

Record Address := {
  addressLine1 : string;
  city : string;
  stateOrProvinceCode : string;
  zipCode : string }.

Record SamEntity := {
  uei : option string;
  legalBusinessName : option string;
  dbaName : option string;
  cageCode : option string;
  registrationStatus : string;
  registrationExpirationDate : option string;
  physicalAddress : Address;
  businessTypes : list (option string);
  naicsCode : list (option string);
  sbaBusinessTypes : list (option string) }.

Definition normalizeSamEntity (raw : RawEntity) : SamEntity :=
  {| uei := or_else (reg_ueiSAM raw) (top_ueiSAM raw);
     legalBusinessName :=
       or_else (reg_legalBusinessName raw) (top_legalBusinessName raw);
     dbaName := reg_dbaName raw;
     cageCode := reg_cageCode raw;
     registrationStatus := or_default (reg_registrationStatus raw) "Unknown";
     registrationExpirationDate := reg_registrationExpirationDate raw;
     physicalAddress :=
       {| addressLine1 := or_default (addr_addressLine1 raw) "";
          city := or_default (addr_city raw) "";
          stateOrProvinceCode := or_default (addr_stateOrProvinceCode raw) "";
          zipCode := or_default (addr_zipCode raw) "" |};
     businessTypes :=
       map (fun bt => or_else (businessTypeDesc bt) (businessType bt))
           (businessTypeList raw);
     naicsCode := map naics_naicsCode (naicsList raw);
     sbaBusinessTypes :=
       map (fun s => or_else (sbaBusinessTypeDesc s) (sbaBusinessType s))
           (sbaBusinessTypeList raw) |}.

(** A registry record that carries a legal name, and optionally a trade
    name and a state, and nothing else. *)
Definition candidate (legal : string) (dba state : option string) : RawEntity :=
  {| reg_ueiSAM := None; reg_legalBusinessName := Some legal;
     reg_dbaName := dba; reg_cageCode := None;
     reg_registrationStatus := None; reg_registrationExpirationDate := None;
     top_ueiSAM := None; top_legalBusinessName := None;
     addr_addressLine1 := None; addr_city := None;
     addr_stateOrProvinceCode := state; addr_zipCode := None;
     businessTypeList := []; naicsList := []; sbaBusinessTypeList := [] |}.

(** The subject of a resolution: the properties read off the CRM record. *)
Record CompanyProps := {
  name : option string;
  state : option string;
  domain : option string }.

(** ** Combined match score *)

Definition lower (s : string) : string := text (toLowerCase (chars s)).

(** The body of the [map] callback of [processCompanyCreation] up to the
    score.  [None] is the [TypeError] that [normalizeCompanyName] raises
    on a record without a legal name. *)
Definition matchScore (companyName : string) (companyState : option string)
    (normalized : SamEntity) : option Q :=
  match legalBusinessName normalized with
  | None => None
  | Some legal =>
      let nameScore :=
        diceCoefficient (normalizeCompanyName companyName)
                        (normalizeCompanyName legal) in
      let dbaScore :=
        match dbaName normalized with
        | Some dba =>
            if truthy (Some dba)
            then diceCoefficient (normalizeCompanyName companyName)
                                 (normalizeCompanyName dba)
            else 0%Q
        | None => 0%Q
        end in
      let stateBonus :=
        match companyState with
        | Some st =>
            let code := stateOrProvinceCode (physicalAddress normalized) in
            if truthy (Some st) && truthy (Some code)
            then if String.eqb (lower st) (lower code) then (1 # 10)%Q else 0%Q
            else 0%Q
        | None => 0%Q
        end in
      Some (Qmin 1 (Qmax nameScore dbaScore + stateBonus))
  end.

Definition AUTO_LINK : Q := 11 # 20.
Definition RELEVANCE_FLOOR : Q := 1 # 2.


(** ** Resolution classifier *)

(** One element of [matches]: [{ entity: normalized, raw: entity, score }]. *)
Record Match := {
  m_entity : SamEntity;
  m_raw : RawEntity;
  m_score : Q }.

(** What [processCompanyCreation] hands to its sinks.
    - [Skipped]: the company has no name; nothing is written.
    - [NoMatch sample]: a [match_queue] row with status ['no_match'] and
      [search_results = sample].
    - [Pending tops]: a [match_queue] row with status ['pending'] and the
      listed [{entity, score}] pairs.
    - [Matched entity raw score]: the [sam_entities] upsert, the
      association with [match_type = 'automatic'], the CRM update and the
      [auto_match] log entry.
    - [Failed]: the [catch] branch, a [sync_log] row with status ['error']. *)
Inductive Outcome :=
| Skipped
| NoMatch (sample : list RawEntity)
| Pending (tops : list (SamEntity * Q))
| Matched (entity : SamEntity) (raw : RawEntity) (score : Q)
| Failed.

(** The [map] callback; [None] when it throws. *)
Definition scoreEntity (companyName : string) (companyState : option string)
    (entity : RawEntity) : option Match :=
  let normalized := normalizeSamEntity entity in
  match matchScore companyName companyState normalized with
  | Some score => Some {| m_entity := normalized; m_raw := entity; m_score := score |}
  | None => None
  end.

(** [samEntities.map(...)]: the first callback that throws ends the loop. *)
Fixpoint scoreAll (companyName : string) (companyState : option string)
    (samEntities : list RawEntity) : option (list Match) :=
  match samEntities with
  | [] => Some []
  | entity :: rest =>
      match scoreEntity companyName companyState entity with
      | None => None
      | Some m =>
          match scoreAll companyName companyState rest with
          | None => None
          | Some ms => Some (m :: ms)
          end
      end
  end.

(** [.sort((a, b) => b.score - a.score)].  [Array.prototype.sort] is
    stable, and a stable sort is determined by its comparator: elements
    are placed by descending score, and of two with equal scores the one
    that came first stays first.  It is written here as an insertion sort
    that inserts from the right. *)
Fixpoint insert_desc (m : Match) (sorted : list Match) : list Match :=
  match sorted with
  | [] => [m]
  | x :: rest =>
      if Qle_bool (m_score x) (m_score m) then m :: x :: rest
      else x :: insert_desc m rest
  end.

Definition sort_desc (ms : list Match) : list Match :=
  foldr insert_desc [] ms.

(** [slice(0, 5)] *)
Definition slice5 {A} (l : list A) : list A := firstn 5 l.

(** [processCompanyCreation] from the test [samEntities.length === 0] to
    the end of its [try] block. *)
Definition classify (companyName : string) (companyState : option string)
    (samEntities : list RawEntity) : Outcome :=
  match samEntities with
  | [] => NoMatch []
  | _ =>
      match scoreAll companyName companyState samEntities with
      | None => Failed
      | Some scored =>
          let matches :=
            sort_desc (filter (fun m => Qle_bool RELEVANCE_FLOOR (m_score m) = true)
                              scored) in
          match matches with
          | [] => NoMatch (slice5 samEntities)
          | bestMatch :: _ =>
              if Qle_bool AUTO_LINK (m_score bestMatch)
              then Matched (m_entity bestMatch) (m_raw bestMatch) (m_score bestMatch)
              else Pending (map (fun m => (m_entity m, m_score m)) (slice5 matches))
          end
      end
  end.

(** The combined score of a raw candidate. *)
Definition combinedScore (companyName : string) (companyState : option string)
    (entity : RawEntity) : option Q :=
  matchScore companyName companyState (normalizeSamEntity entity).

(** A list of scored candidates is in descending order of score. *)
Definition descending (tops : list (SamEntity * Q)) : Prop :=
  StronglySorted (fun x y => (snd y <= snd x)%Q) tops.

(** [best] is the best combined score of the candidates: every candidate
    has a score, none is above [best], and one attains it. *)
Definition best_score (companyName : string) (companyState : option string)
    (samEntities : list RawEntity) (best : Q) : Prop :=
  (forall c, c ∈ samEntities ->
     exists s, combinedScore companyName companyState c = Some s /\ (s <= best)%Q)
  /\ (exists c s, c ∈ samEntities
        /\ combinedScore companyName companyState c = Some s /\ (s == best)%Q).

(** The candidate clears the relevance floor. *)
Definition clears_floor (companyName : string) (companyState : option string)
    (entity : RawEntity) : bool :=
  match combinedScore companyName companyState entity with
  | Some score => Qle_bool RELEVANCE_FLOOR score
  | None => false
  end.

(** ** The registry backend and the other collaborators *)

(** The search parameters of a registry request that vary; [api_key] and
    [registrationStatus = 'A'] go with every request. *)
Inductive Query :=
| ByName (legalBusinessName : string) (physicalAddressStateCode : option string)
| ByDomain (entityURL : string)
| ByKeyword (samSearch : string).

(** The body of a response as [response.json()] sees it: not JSON, or an
    object whose [entityData] may be missing. *)
Inductive Body :=
| BadJson
| Json (entityData : option (list RawEntity)).

Record Response := {
  status : Z;
  body : Body }.

(** [response.ok] *)
Definition ok (r : Response) : bool :=
  (200 <=? status r) && (status r <=? 299).

(** [fetch] rejects, or resolves to a response. *)
Inductive FetchResult :=
| NetworkError
| Responded (response : Response).

(** A row of the local table of registry records. *)
Record Row := {
  row_uei : option string;
  row_legal_business_name : option string;
  row_dba_name : option string;
  row_cage_code : option string;
  row_registration_status : option string;
  row_registration_expiration_date : option string;
  row_physical_address_state : option string }.

(** A database call throws, or resolves to [{ data, error }]. *)
Inductive DbResult :=
| DbThrows
| DbError
| DbData (data : option (list Row)).

(** What a run does to the outside world, in order. *)
Inductive Event :=
| Fetched (params : Query) (result : FetchResult)
| Delayed (ms : Z)
| RpcCalled (search_name : string) (search_state search_domain : option string)
| TableQueried (name : string) (state : option string).

(** The collaborators: each call may depend on, and change, a state of
    their own. *)
Record Env := {
  BState : Type;
  fetch : Query -> BState -> FetchResult * BState;
  rpc : string -> option string -> option string -> BState -> DbResult * BState;
  query_table : string -> option string -> BState -> DbResult * BState;
  Date_now : BState -> Z * BState;
  getCompanyFromHubSpot :
    string -> string -> BState -> option CompanyProps * BState;
  USE_LOCAL_DB : bool;
  SAM_API_KEY : option string }.

Inductive Result (A : Type) :=
| Returned (a : A)
| Threw.

Arguments Returned {A} a.
Arguments Threw {A}.

Definition is_fetch (e : Event) : bool :=
  match e with Fetched _ _ => true | _ => false end.

Definition is_retrieval (e : Event) : bool :=
  match e with Delayed _ => false | _ => true end.

(** The requests sent to the registry, with what came back. *)
Fixpoint fetches (t : list Event) : list (Query * FetchResult) :=
  match t with
  | [] => []
  | Fetched q r :: t' => (q, r) :: fetches t'
  | _ :: t' => fetches t'
  end.

(** A response that carries at least one record. *)
Definition has_results (r : FetchResult) : bool :=
  match r with
  | Responded resp =>
      ok resp && match body resp with Json (Some (_ :: _)) => true | _ => false end
  | NetworkError => false
  end.

(** The requests of a trace, in order. *)
Definition queries (t : list Event) : list Query := map fst (fetches t).

(** No request of [fs] brought a record. *)
Definition quiet (fs : list (Query * FetchResult)) : Prop :=
  Forall (fun x => has_results (snd x) = false) fs.

(** Nothing was requested after a response that brought records. *)
Definition stops_at_first_result (fs : list (Query * FetchResult)) : Prop :=
  forall pre x post, fs = pre ++ x :: post -> post <> [] ->
    has_results (snd x) = false.

(** The last request of [fs] was answered with the records [l]. *)
Definition ends_with (l : list RawEntity) (fs : list (Query * FetchResult)) : Prop :=
  exists pre q resp,
    fs = pre ++ [(q, Responded resp)]
    /\ ok resp = true /\ body resp = Json (Some l).

(** The last request of [fs] was rejected, or answered with a 2xx status
    and a body that is not JSON. *)
Definition ends_broken (fs : list (Query * FetchResult)) : Prop :=
  exists pre q res,
    fs = pre ++ [(q, res)]
    /\ (res = NetworkError
        \/ exists resp, res = Responded resp
              /\ ok resp = true /\ body resp = BadJson).

(** [value || null] for an optional string *)
Definition as_truthy (o : option string) : option string :=
  if truthy o then o else None.

Definition toUpperCase (l : list ascii) : list ascii := map to_upper l.

Definition STATE_ABBREVIATIONS : gmap string string :=
  list_to_map
    [("alabama", "AL"); ("alaska", "AK"); ("arizona", "AZ"); ("arkansas", "AR");
     ("california", "CA"); ("colorado", "CO"); ("connecticut", "CT");
     ("delaware", "DE"); ("florida", "FL"); ("georgia", "GA"); ("hawaii", "HI");
     ("idaho", "ID"); ("illinois", "IL"); ("indiana", "IN"); ("iowa", "IA");
     ("kansas", "KS"); ("kentucky", "KY"); ("louisiana", "LA"); ("maine", "ME");
     ("maryland", "MD"); ("massachusetts", "MA"); ("michigan", "MI");
     ("minnesota", "MN"); ("mississippi", "MS"); ("missouri", "MO");
     ("montana", "MT"); ("nebraska", "NE"); ("nevada", "NV");
     ("new hampshire", "NH"); ("new jersey", "NJ"); ("new mexico", "NM");
     ("new york", "NY"); ("north carolina", "NC"); ("north dakota", "ND");
     ("ohio", "OH"); ("oklahoma", "OK"); ("oregon", "OR");
     ("pennsylvania", "PA"); ("rhode island", "RI"); ("south carolina", "SC");
     ("south dakota", "SD"); ("tennessee", "TN"); ("texas", "TX"); ("utah", "UT");
     ("vermont", "VT"); ("virginia", "VA"); ("washington", "WA");
     ("west virginia", "WV"); ("wisconsin", "WI"); ("wyoming", "WY");
     ("district of columbia", "DC"); ("puerto rico", "PR"); ("guam", "GU");
     ("virgin islands", "VI"); ("american samoa", "AS");
     ("northern mariana islands", "MP")]%string.

(** The table is read by its own entries only. *)
Definition normalizeStateCode (state : option string) : option string :=
  match as_truthy state with
  | None => None
  | Some st =>
      let trimmed := trim (chars st) in
      if (length trimmed =? 2)%nat then Some (text (toUpperCase trimmed))
      else
        match STATE_ABBREVIATIONS !! text (toLowerCase trimmed) with
        | Some abbrev => if truthy (Some abbrev) then Some abbrev else Some (text trimmed)
        | None => Some (text trimmed)
        end
  end.

Definition CACHE_TTL : Z := 5 * 60 * 1000.
Definition DEDUP_TTL : Z := 30 * 1000.

(** The conversion of a local row to the shape of a registry record (the
    [_similarity] entry, kept for debugging, is left out). *)
Definition row_to_raw (row : Row) : RawEntity :=
  {| reg_ueiSAM := row_uei row;
     reg_legalBusinessName := row_legal_business_name row;
     reg_dbaName := row_dba_name row;
     reg_cageCode := row_cage_code row;
     reg_registrationStatus := row_registration_status row;
     reg_registrationExpirationDate := row_registration_expiration_date row;
     top_ueiSAM := None; top_legalBusinessName := None;
     addr_addressLine1 := None; addr_city := None;
     addr_stateOrProvinceCode := row_physical_address_state row;
     addr_zipCode := None;
     businessTypeList := []; naicsList := []; sbaBusinessTypeList := [] |}.

(** [!data.entityData || data.entityData.length === 0] *)
Definition no_results (data : option (list RawEntity)) : bool :=
  match data with
  | Some (_ :: _) => false
  | _ => true
  end.

Section Engine.

Context (E : Env).

(** The module's view of the world: the collaborators and its own cache. *)
Record World := {
  outside : BState E;
  searchCache : gmap string (list RawEntity * Z) }.

(** A computation returns or throws, leaves a trace, and changes the world. *)
Definition M (A : Type) : Type := World -> Result A * list Event * World.

#[global] Instance M_ret : MRet M := fun A a w => (Returned a, [], w).

#[global] Instance M_bind : MBind M := fun A B f m w =>
  match m w with
  | (Returned a, t1, w1) => let '(r, t2, w2) := f a w1 in (r, t1 ++ t2, w2)
  | (Threw, t1, w1) => (Threw, t1, w1)
  end.

Definition throw {A} : M A := fun w => (Threw, [], w).

Definition try_catch {A} (m handler : M A) : M A := fun w =>
  match m w with
  | (Threw, t1, w1) => let '(r, t2, w2) := handler w1 in (r, t1 ++ t2, w2)
  | done => done
  end.

Definition emit (e : Event) : M unit := fun w => (Returned tt, [e], w).

Definition call {A} (f : BState E -> A * BState E) : M A := fun w =>
  let '(a, b) := f (outside w) in
  (Returned a, [], {| outside := b; searchCache := searchCache w |}).

Definition delay (ms : Z) : M unit := emit (Delayed ms).

(** [await fetch(`${SAM_API_BASE}?${params}`, ...)] *)
Definition do_fetch (params : Query) : M Response :=
  r ← call (fetch E params);
  emit (Fetched params r);;
  match r with
  | NetworkError => throw
  | Responded response => mret response
  end.

(** [await response.json()] *)
Definition json (response : Response) : M (option (list RawEntity)) :=
  match body response with
  | BadJson => throw
  | Json data => mret data
  end.

(** The helper [samFetch] of [searchSamApi]; its second argument names the
    strategy in the log lines and is left out. *)
Definition samFetch (params : Query) : M (option (list RawEntity)) :=
  response ← do_fetch params;
  if status response =? 429 then
    delay 2000;;
    retryResponse ← do_fetch params;
    if negb (ok retryResponse) then mret (Some [])
    else json retryResponse
  else if negb (ok response) then mret (Some [])
  else json response.

Definition searchSamApi (name : string) (state domain : option string)
    : M (list RawEntity) :=
  let normalizedName := normalizeCompanyName name in
  (* Strategy 1 *)
  data ← samFetch (ByName normalizedName (as_truthy state));
  (* Strategy 2 *)
  data ← (if no_results data && truthy state then
            delay 500;;
            samFetch (ByName normalizedName None)
          else mret data);
  (* Strategy 3 *)
  data ← (match as_truthy domain with
          | Some url =>
              if no_results data then
                delay 500;;
                samFetch (ByDomain url)
              else mret data
          | None => mret data
          end);
  (* Strategy 4 *)
  data ← (if no_results data then
            delay 500;;
            samFetch (ByKeyword normalizedName)
          else mret data);
  mret (default [] data).

Definition do_rpc (search_name : string) (search_state search_domain : option string)
    : M DbResult :=
  emit (RpcCalled search_name search_state search_domain);;
  call (rpc E search_name search_state search_domain).

Definition searchSamLocalDbBasic (name : string) (state domain : option string)
    : M (list RawEntity) :=
  emit (TableQueried name (as_truthy state));;
  r ← call (query_table E name (as_truthy state));
  match r with
  | DbThrows => throw
  | DbError => mret []
  | DbData data => mret (map row_to_raw (default [] data))
  end.

Definition searchSamLocalDb (name : string) (state domain : option string)
    : M (list RawEntity) :=
  let normalizedName := normalizeCompanyName name in
  try_catch
    (r ← do_rpc normalizedName (as_truthy state) (as_truthy domain);
     match r with
     | DbThrows => throw
     | DbError => searchSamLocalDbBasic normalizedName state domain
     | DbData None | DbData (Some []) => mret []
     | DbData (Some rows) => mret (map row_to_raw rows)
     end)
    (mret []).

Definition get_cached (cacheKey : string) : M (option (list RawEntity * Z)) :=
  fun w => (Returned (searchCache w !! cacheKey), [], w).

Definition set_cached (cacheKey : string) (entry : list RawEntity * Z) : M unit :=
  fun w => (Returned tt, [],
            {| outside := outside w;
               searchCache := <[cacheKey := entry]> (searchCache w) |}).

Definition searchSamByName (name : string) (state domain : option string)
    : M (list RawEntity) :=
  let normalizedName := normalizeCompanyName name in
  let normalizedState := normalizeStateCode state in
  let cacheKey :=
    (normalizedName +:+ "|" +:+ default "" (as_truthy normalizedState)
       +:+ "|" +:+ default "" (as_truthy domain))%string in
  cached ← get_cached cacheKey;
  hit ← (match cached with
         | Some (_, timestamp) =>
             now ← call (Date_now E); mret (now - timestamp <? CACHE_TTL)
         | None => mret false
         end);
  match cached, hit with
  | Some (data, _), true => mret data
  | _, _ =>
      results ← (if USE_LOCAL_DB E then
                   results ← searchSamLocalDb name normalizedState domain;
                   if (length results =? 0)%nat && truthy (SAM_API_KEY E)
                   then searchSamApi name normalizedState domain
                   else mret results
                 else searchSamApi name normalizedState domain);
      now ← call (Date_now E);
      set_cached cacheKey (results, now);;
      mret results
  end.

(** [processCompanyCreation]: the outcome is what goes to the sinks. *)
Definition processCompanyCreation (companyId portalId : string) : M Outcome :=
  try_catch
    (found ← call (getCompanyFromHubSpot E companyId portalId);
     match found with
     | None => throw
     | Some companyProps =>
         match as_truthy (name companyProps) with
         | None => mret Skipped
         | Some companyName =>
             samEntities ← searchSamByName companyName (state companyProps)
                             (domain companyProps);
             mret (classify companyName (state companyProps) samEntities)
         end
     end)
    (mret Failed).

(** The pattern of strategies 2 to 4: run [params] after the pause when
    nothing has been found so far and the strategy applies. *)
Definition stage (applies : bool) (params : Query)
    (data : option (list RawEntity)) : M (option (list RawEntity)) :=
  if no_results data && applies then
    delay 500;;
    samFetch params
  else mret data.

(** How a strategy ended, read off the requests sent so far. *)
Definition settled (r : Result (option (list RawEntity)))
    (fs : list (Query * FetchResult)) : Prop :=
  match r with
  | Returned (Some (c :: l)) => ends_with (c :: l) fs
  | Returned _ => quiet fs
  | Threw => quiet fs /\ ends_broken fs
  end.

End Engine.

Arguments outside {E} _.
Arguments searchCache {E} _.
Arguments settled _ _ : clear implicits.

(** How a retrieval ended, read off the requests it sent. *)
Definition chain_end (r : Result (list RawEntity))
    (fs : list (Query * FetchResult)) : Prop :=
  match r with
  | Returned [] => quiet fs
  | Returned l => ends_with l fs
  | Threw => quiet fs /\ ends_broken fs
  end.

(** The four strategies of [searchSamApi]. *)
Definition strategy1 (name : string) (state : option string) : Query :=
  ByName (normalizeCompanyName name) (as_truthy state).
Definition strategy2 (name : string) : Query :=
  ByName (normalizeCompanyName name) None.
Definition strategy3 (domain : option string) : Query :=
  ByDomain (default ""%string domain).
Definition strategy4 (name : string) : Query :=
  ByKeyword (normalizeCompanyName name).

(** A registry that always answers, and with JSON whenever the status is
    2xx: its failures are HTTP failures. *)
Definition http_only (E : Env) : Prop :=
  forall q b, exists resp b',
    fetch E q b = (Responded resp, b')
    /\ (ok resp = true -> body resp <> BadJson).

(** The key has no marker that counts at time [now]. *)
Definition no_live_marker (recentlyProcessed : gmap string Z) (dedupKey : string)
    (now : Z) : Prop :=
  match recentlyProcessed !! dedupKey with
  | Some lastProcessed => lastProcessed = 0 \/ DEDUP_TTL <= now - lastProcessed
  | None => True
  end.

(** ** Request deduplicator *)

(** The body of the handler's loop from [const dedupKey] to
    [recentlyProcessed.set]: [false] is the [continue].  [now_check] and
    [now_mark] are the values of the two calls of [Date.now()], the one
    in the test and the one that is stored. *)
Definition shouldProcess (dedupKey : string) (now_check now_mark : Z)
    (recentlyProcessed : gmap string Z) : bool * gmap string Z :=
  match recentlyProcessed !! dedupKey with
  | Some lastProcessed =>
      if negb (lastProcessed =? 0) && (now_check - lastProcessed <? DEDUP_TTL)
      then (false, recentlyProcessed)
      else (true, <[dedupKey := now_mark]> recentlyProcessed)
  | None => (true, <[dedupKey := now_mark]> recentlyProcessed)
  end.

(** ** A scripted backend

    The registry answers the requests it receives with the responses of a
    script, in order, and with status 500 once the script is used up; the
    local table is empty, the clock stands still, and every company of
    the CRM has the given properties. *)
Definition scripted (company : option CompanyProps) (use_local : bool) : Env :=
  {| BState := list FetchResult;
     fetch := fun _ script =>
       match script with
       | r :: rest => (r, rest)
       | [] => (Responded {| status := 500; body := BadJson |}, [])
       end;
     rpc := fun _ _ _ script => (DbData None, script);
     query_table := fun _ _ script => (DbData None, script);
     Date_now := fun script => (1700000000000, script);
     getCompanyFromHubSpot := fun _ _ script => (company, script);
     USE_LOCAL_DB := use_local;
     SAM_API_KEY := Some "key"%string |}.

Definition start (company : option CompanyProps) (use_local : bool)
    (script : list FetchResult) : World (scripted company use_local) :=
  Build_World (scripted company use_local) script ∅.

Definition found (records : list RawEntity) : FetchResult :=
  Responded {| status := 200; body := Json (Some records) |}.

Definition failed (code : Z) : FetchResult :=
  Responded {| status := code; body := BadJson |}.

(** A registry that is down: every request gets status 503. *)
Definition unavailable : Env :=
  {| BState := unit;
     fetch := fun _ _ => (Responded {| status := 503; body := BadJson |}, tt);
     rpc := fun _ _ _ _ => (DbError, tt);
     query_table := fun _ _ _ => (DbError, tt);
     Date_now := fun _ => (1700000000000, tt);
     getCompanyFromHubSpot := fun _ _ _ => (None, tt);
     USE_LOCAL_DB := false;
     SAM_API_KEY := Some "key"%string |}.

(** ** Notions used to state further properties *)

(** The key of [searchSamByName] in [searchCache]. *)
Definition cacheKey (name : string) (state domain : option string) : string :=
  (normalizeCompanyName name +:+ "|"
     +:+ default "" (as_truthy (normalizeStateCode state))
     +:+ "|" +:+ default "" (as_truthy domain))%string.

(** The part of [searchSamByName] between the cache test and the store:
    the local table first when it is switched on, the registry otherwise
    or when the table gave nothing and a key is configured. *)
Definition retrieve (E : Env) (name : string) (state domain : option string)
    : M E (list RawEntity) :=
  let normalizedState := normalizeStateCode state in
  if USE_LOCAL_DB E then
    results ← searchSamLocalDb E name normalizedState domain;
    if (length results =? 0)%nat && truthy (SAM_API_KEY E)
    then searchSamApi E name normalizedState domain
    else mret results
  else searchSamApi E name normalizedState domain.

(** The cache has no entry for the key that counts at the next reading of
    the clock. *)
Definition no_fresh_entry {E : Env} (w : World E) (key : string) : Prop :=
  match searchCache w !! key with
  | Some (_, timestamp) =>
      CACHE_TTL <= fst (Date_now E (outside w)) - timestamp
  | None => True
  end.

(** The milliseconds a run spends in [delay]. *)
Fixpoint paused (t : list Event) : Z :=
  match t with
  | [] => 0
  | Delayed ms :: t' => ms + paused t'
  | _ :: t' => paused t'
  end.

(** The calls of a run to the local table. *)
Definition is_db_call (e : Event) : bool :=
  match e with
  | RpcCalled _ _ _ | TableQueried _ _ => true
  | _ => false
  end.

(** *** The handler's loop *)

(** A webhook event; the identifiers are numbers. *)
Record HubEvent := {
  subscriptionType : string;
  objectId : N;
  portalId : N;
  propertyName : option string }.

(** The test that selects creations and changes of name or domain. *)
Definition wanted (event : HubEvent) : bool :=
  String.eqb (subscriptionType event) "object.creation"
  || (String.eqb (subscriptionType event) "object.propertyChange"
      && match propertyName event with
         | Some p => String.eqb p "name" || String.eqb p "domain"
         | None => false
         end).

(** [`${portalId}-${objectId}`] *)
Definition dedupKey (event : HubEvent) : string :=
  (pretty (portalId event) +:+ "-" +:+ pretty (objectId event))%string.

(** The loop over the events of one request.  Each event comes with the
    two readings of the clock its iteration would make.  The result lists
    the arguments of the calls of [processCompanyCreation] that were
    started, in order, and the markers left. *)
Fixpoint schedule (events : list (HubEvent * (Z * Z)))
    (recentlyProcessed : gmap string Z)
    : list (string * string) * gmap string Z :=
  match events with
  | [] => ([], recentlyProcessed)
  | (event, (now_check, now_mark)) :: rest =>
      if wanted event then
        let '(go, marked) :=
          shouldProcess (dedupKey event) now_check now_mark recentlyProcessed in
        let '(started, final) := schedule rest marked in
        (if go
         then (pretty (objectId event), pretty (portalId event)) :: started
         else started,
         final)
      else schedule rest recentlyProcessed
  end.

(** The dedup key of a started call, from its arguments. *)
Definition key_of (call : string * string) : string :=
  (snd call +:+ "-" +:+ fst call)%string.

(** The miss branch of [searchSamByName]: retrieve, read the clock, store. *)
Definition retrieve_and_store (E : Env) (name : string)
    (state domain : option string) : M E (list RawEntity) :=
  results ← retrieve E name state domain;
  now ← call E (Date_now E);
  set_cached E (cacheKey name state domain) (results, now);;
  mret results.

(** The readings of the clock are positive and lie in one window of less
    than thirty seconds that starts at [T]. *)
Definition in_window (T : Z) (x : HubEvent * (Z * Z)) : Prop :=
  0 < snd (snd x) /\ T <= snd (snd x) /\ fst (snd x) < T + DEDUP_TTL.

(** The key has a positive marker not older than [T]. *)
Definition marked_since (T : Z) (m : gmap string Z) (k : string) : Prop :=
  exists t, m !! k = Some t /\ 0 < t /\ T <= t.

(** ** Properties of the normalizer *)

Section Normalizer.

Implicit Types (s cur : list ascii) (c : ascii).

Lemma chars_text (l : list ascii) : chars (text l) = l.
Proof. apply list_ascii_of_string_of_list_ascii. Qed.

Lemma text_chars (x : string) : text (chars x) = x.
Proof. apply string_of_list_ascii_of_string. Qed.

Lemma is_legal_suffix_nil : is_legal_suffix [] = false.
Proof. reflexivity. Qed.

Lemma is_legal_suffix_nonempty cur : is_legal_suffix cur = true -> cur <> [].
Proof. intros H ->. discriminate H. Qed.

Lemma words_from_app pre a s :
  Forall (fun c => is_word c = true) a ->
  words_from pre (a ++ s) = words_from (pre ++ a) s.
Proof.
  intros Ha. revert pre. induction Ha as [|c a Hc _ IH]; intros pre; simpl.
  - now rewrite app_nil_r.
  - rewrite Hc, IH. now rewrite <- app_assoc.
Qed.

(** The suffix pass removes whole words and nothing else: the words of its
    result are the words of its argument that are not legal suffixes, in
    the same order. *)
Lemma words_strip_from cur s :
  Forall (fun c => is_word c = true) cur ->
  filter (fun w => w <> []) (words_from [] (strip_from cur s))
  = filter (fun w => is_legal_suffix w = false)
      (filter (fun w => w <> []) (words_from cur s)).
Proof.
  revert cur. induction s as [|c s IH]; intros cur Hcur; simpl.
  - destruct (is_legal_suffix cur) eqn:E.
    + rewrite (filter_cons_True _ cur) by now apply is_legal_suffix_nonempty.
      rewrite filter_cons_False by congruence. reflexivity.
    + replace (words_from [] cur) with [cur]
        by (rewrite <- (app_nil_r cur) at 2; now rewrite words_from_app).
      destruct (decide (cur = [])) as [->|Hne]; [reflexivity|].
      rewrite !(filter_cons_True _ cur) by assumption. reflexivity.
  - destruct (is_word c) eqn:Ec.
    + apply IH. apply Forall_app. auto.
    + assert (Hnil : Forall (fun c => is_word c = true) []) by constructor.
      specialize (IH [] Hnil).
      destruct (is_legal_suffix cur) eqn:E.
      * rewrite (filter_cons_True _ cur) by now apply is_legal_suffix_nonempty.
        rewrite (filter_cons_False _ cur) by congruence.
        rewrite <- IH. case_bool_decide; [reflexivity|].
        simpl. rewrite Ec. now rewrite filter_cons_False by tauto.
      * rewrite words_from_app by assumption. simpl. rewrite Ec.
        destruct (decide (cur = [])) as [->|Hne].
        -- rewrite !(filter_cons_False _ []) by tauto. exact IH.
        -- rewrite !(filter_cons_True _ cur) by assumption.
           now rewrite IH.
Qed.

Lemma words_strip_suffixes s :
  words (strip_suffixes s)
  = filter (fun w => is_legal_suffix w = false) (words s).
Proof. apply words_strip_from. constructor. Qed.

End Normalizer.

(** C6.  Legal suffixes go only as whole words: after the suffix pass the
    words of a name are its words that are not legal suffixes, so a word
    that merely contains one stays as it is; and
    [normalize("Incorporate Systems Inc")] is "incorporate systems". *)
Theorem suffixes_stripped_as_whole_words :
  (forall s : list ascii,
      words (strip_suffixes s)
      = filter (fun w => is_legal_suffix w = false) (words s))
  /\ normalizeCompanyName "Incorporate Systems Inc" = "incorporate systems"%string.
Proof.
  split.
  - exact words_strip_suffixes.
  - vm_compute. reflexivity.
Qed.
(** ** Normalizing twice *)

Section Idempotence.

Implicit Types (s cur : list ascii) (c : ascii) (P : ascii -> Prop).

Lemma space_not_word c : is_space c = true -> is_word c = false.
Proof. destruct c as [[] [] [] [] [] [] [] []]; vm_compute; congruence. Qed.

Lemma to_lower_not_upper c : is_upper (to_lower c) = false.
Proof. destruct c as [[] [] [] [] [] [] [] []]; reflexivity. Qed.

Lemma to_lower_fixed c : is_upper c = false -> to_lower c = c.
Proof. unfold to_lower. now intros ->. Qed.

Lemma toLowerCase_fixed s :
  Forall (fun c => is_upper c = false) s -> toLowerCase s = s.
Proof.
  induction 1 as [|c s Hc _ IH]; simpl; [reflexivity|].
  now rewrite to_lower_fixed, IH.
Qed.

Lemma toLowerCase_lowered s : Forall (fun c => is_upper c = false) (toLowerCase s).
Proof. induction s; constructor; auto using to_lower_not_upper. Qed.

(** *** Every pass only keeps characters of its argument, or writes a space *)

Lemma strip_from_Forall P cur s :
  Forall P cur -> Forall P s -> Forall P (strip_from cur s).
Proof.
  intros Hcur Hs. revert cur Hcur.
  induction Hs as [|c s Hc Hs IH]; intros cur Hcur; simpl.
  - destruct (is_legal_suffix cur); auto.
  - destruct (is_word c).
    + apply IH. apply Forall_app; auto.
    + destruct (is_legal_suffix cur).
      * case_bool_decide; auto.
      * apply Forall_app. split; auto.
Qed.

Lemma strip_punct_Forall P s : Forall P s -> Forall P (strip_punct s).
Proof.
  unfold strip_punct. rewrite !Forall_forall. intros H c Hin.
  apply H. now apply list_elem_of_filter in Hin.
Qed.

Lemma strip_punct_kept s :
  Forall (fun c => is_word c || is_space c = true) (strip_punct s).
Proof.
  unfold strip_punct. apply Forall_forall. intros c Hin.
  now apply list_elem_of_filter in Hin.
Qed.

Lemma strip_punct_fixed s :
  Forall (fun c => is_word c || is_space c = true) s -> strip_punct s = s.
Proof.
  unfold strip_punct. induction 1 as [|c s Hc _ IH]; [reflexivity|].
  rewrite filter_cons_True by assumption. now rewrite IH.
Qed.

Lemma collapse_from_Forall P b s :
  P space -> Forall P s -> Forall P (collapse_from b s).
Proof.
  intros Hsp Hs. revert b. induction Hs as [|c s Hc _ IH]; intros b; simpl.
  - constructor.
  - destruct (is_space c); [destruct b|]; auto.
Qed.

Lemma trim_start_Forall P s : Forall P s -> Forall P (trim_start s).
Proof.
  induction 1 as [|c s Hc Hs IH]; simpl; [constructor|].
  destruct (is_space c); auto.
Qed.

Lemma trim_end_Forall P s : Forall P s -> Forall P (trim_end s).
Proof.
  induction 1 as [|c s Hc Hs IH]; simpl; [constructor|].
  destruct (trim_end s); [destruct (is_space c)|]; auto.
Qed.

(** *** White space after [collapse_ws] and [trim] *)

Lemma single_spaced_weaken b s :
  single_spaced b s = true -> single_spaced false s = true.
Proof.
  destruct s as [|c s]; simpl; [reflexivity|].
  destruct (is_space c); [|tauto].
  rewrite !andb_true_iff. tauto.
Qed.

Lemma collapse_from_single_spaced b s :
  single_spaced b (collapse_from b s) = true.
Proof.
  revert b. induction s as [|c s IH]; intros b; simpl; [reflexivity|].
  destruct (is_space c) eqn:Ec.
  - destruct b; [apply IH|]. exact (IH true).
  - simpl. rewrite Ec. apply IH.
Qed.

Lemma collapse_from_fixed b s :
  single_spaced b s = true -> collapse_from b s = s.
Proof.
  revert b. induction s as [|c s IH]; intros b; simpl; [reflexivity|].
  destruct (is_space c).
  - rewrite !andb_true_iff. intros [[Hc Hb] Hs].
    apply bool_decide_eq_true_1 in Hc. apply negb_true_iff in Hb. subst.
    now rewrite IH.
  - intros Hs. now rewrite IH.
Qed.

Lemma trim_start_single_spaced b s :
  single_spaced b s = true -> single_spaced false (trim_start s) = true.
Proof.
  revert b. induction s as [|c s IH]; intros b; simpl; [reflexivity|].
  destruct (is_space c) eqn:Ec.
  - rewrite !andb_true_iff. intros [_ Hs]. now apply (IH true).
  - intros Hs. simpl. now rewrite Ec.
Qed.

Lemma trim_end_single_spaced b s :
  single_spaced b s = true -> single_spaced b (trim_end s) = true.
Proof.
  revert b. induction s as [|c s IH]; intros b; simpl; [reflexivity|].
  destruct (is_space c) eqn:Ec.
  - rewrite !andb_true_iff. intros [[Hc Hb] Hs].
    specialize (IH true Hs). destruct (trim_end s) as [|x t]; [reflexivity|].
    cbn [single_spaced] in *. rewrite Ec, Hc, Hb. exact IH.
  - intros Hs. specialize (IH false Hs).
    destruct (trim_end s) as [|x t]; cbn [single_spaced]; rewrite Ec; auto.
Qed.

Lemma trim_start_starts_clean s : starts_clean (trim_start s).
Proof.
  induction s as [|c s IH]; simpl; [exact I|].
  destruct (is_space c) eqn:Ec; [exact IH|exact Ec].
Qed.

Lemma trim_start_fixed s : starts_clean s -> trim_start s = s.
Proof. destruct s as [|c s]; simpl; [reflexivity|]. now intros ->. Qed.

Lemma trim_end_starts_clean s : starts_clean s -> starts_clean (trim_end s).
Proof.
  destruct s as [|c s]; simpl; [exact id|]. intros Hc.
  destruct (trim_end s); [rewrite Hc|]; exact Hc.
Qed.

Lemma trim_end_idemp s : trim_end (trim_end s) = trim_end s.
Proof.
  induction s as [|c s IH]; simpl; [reflexivity|].
  destruct (trim_end s) as [|x t] eqn:E.
  - destruct (is_space c) eqn:Ec; simpl; [reflexivity|]. now rewrite Ec.
  - change (trim_end (c :: x :: t))
      with (match trim_end (x :: t) with
            | [] => if is_space c then [] else [c]
            | t' => c :: t'
            end).
    now rewrite IH.
Qed.

(** *** Lengths never grow, and shrink when a legal suffix is removed *)

Lemma strip_from_length cur s :
  (length (strip_from cur s) <= length cur + length s)%nat.
Proof.
  revert cur. induction s as [|c s IH]; intros cur; simpl.
  - destruct (is_legal_suffix cur); simpl; lia.
  - pose proof (IH (cur ++ [c])) as H1. pose proof (IH []) as H2.
    rewrite length_app in H1. simpl in H1, H2.
    destruct (is_word c); [lia|].
    destruct (is_legal_suffix cur) eqn:E.
    + apply is_legal_suffix_nonempty in E.
      destruct cur; [congruence|]. case_bool_decide; simpl; lia.
    + rewrite length_app. simpl. lia.
Qed.

Lemma strip_from_shrinks cur s :
  Exists (fun w => is_legal_suffix w = true) (words_from cur s) ->
  (length (strip_from cur s) < length cur + length s)%nat.
Proof.
  revert cur. induction s as [|c s IH]; intros cur; simpl.
  - intros H. apply Exists_cons in H as [H|H]; [|now apply Exists_nil in H].
    rewrite H. apply is_legal_suffix_nonempty in H.
    destruct cur; [congruence|simpl; lia].
  - pose proof (strip_from_length [] s) as Hle. simpl in Hle.
    destruct (is_word c).
    + intros H. apply IH in H. rewrite length_app in H. simpl in H. lia.
    + intros H. destruct (is_legal_suffix cur) eqn:E.
      * apply is_legal_suffix_nonempty in E.
        destruct cur; [congruence|]. case_bool_decide; simpl; lia.
      * apply Exists_cons in H as [H|H]; [congruence|].
        apply IH in H. rewrite length_app. simpl in *. lia.
Qed.

Lemma strip_punct_length s : (length (strip_punct s) <= length s)%nat.
Proof. apply length_filter. Qed.

Lemma collapse_from_length b s : (length (collapse_from b s) <= length s)%nat.
Proof.
  revert b. induction s as [|c s IH]; intros b; simpl; [lia|].
  pose proof (IH true). pose proof (IH false).
  destruct (is_space c); [destruct b|]; simpl; lia.
Qed.

Lemma trim_start_length s : (length (trim_start s) <= length s)%nat.
Proof.
  induction s as [|c s IH]; simpl; [lia|]. destruct (is_space c); simpl; lia.
Qed.

Lemma trim_end_length s : (length (trim_end s) <= length s)%nat.
Proof.
  induction s as [|c s IH]; simpl; [lia|].
  destruct (trim_end s); [destruct (is_space c)|]; simpl in *; lia.
Qed.

Lemma strip_from_fixed cur s :
  Forall (fun w => is_legal_suffix w = false) (words_from cur s) ->
  strip_from cur s = cur ++ s.
Proof.
  revert cur. induction s as [|c s IH]; intros cur; simpl.
  - intros H. apply Forall_cons in H as [-> _]. now rewrite app_nil_r.
  - destruct (is_word c).
    + intros H. rewrite IH by assumption. now rewrite <- app_assoc.
    + intros H. apply Forall_cons in H as [-> H]. now rewrite IH.
Qed.

(** The words that count are the non-empty ones. *)
Lemma words_Forall s :
  Forall (fun w => is_legal_suffix w = false) (words s)
  <-> Forall (fun w => is_legal_suffix w = false) (words_from [] s).
Proof.
  unfold words. rewrite !Forall_forall. split; intros H w Hin.
  - destruct (decide (w = [])) as [->|Hne]; [reflexivity|].
    apply H. apply list_elem_of_filter. auto.
  - apply list_elem_of_filter in Hin as [_ Hin]. auto.
Qed.

(** *** The shape of a normalized name *)

Record normal_form (y : list ascii) : Prop := {
  nf_lowered : Forall (fun c => is_upper c = false) y;
  nf_kept : Forall (fun c => is_word c || is_space c = true) y;
  nf_spaced : single_spaced false y = true;
  nf_start : starts_clean y;
  nf_end : trim_end y = y }.

Lemma normalize_chars_normal_form s : normal_form (normalize_chars s).
Proof.
  unfold normalize_chars, trim, collapse_ws. split.
  - apply trim_end_Forall, trim_start_Forall, collapse_from_Forall;
      [reflexivity|].
    apply strip_punct_Forall, strip_from_Forall; [constructor|].
    apply toLowerCase_lowered.
  - apply trim_end_Forall, trim_start_Forall, collapse_from_Forall;
      [reflexivity|].
    apply strip_punct_kept.
  - apply trim_end_single_spaced.
    apply (trim_start_single_spaced false), collapse_from_single_spaced.
  - apply trim_end_starts_clean, trim_start_starts_clean.
  - apply trim_end_idemp.
Qed.

Lemma normalize_chars_fixed y :
  normal_form y ->
  Forall (fun w => is_legal_suffix w = false) (words y) ->
  normalize_chars y = y.
Proof.
  intros [H1 H2 H3 H4 H5] Hw. unfold normalize_chars, trim, collapse_ws.
  rewrite toLowerCase_fixed by assumption.
  unfold strip_suffixes. rewrite strip_from_fixed by now apply words_Forall.
  simpl. rewrite strip_punct_fixed by assumption.
  rewrite collapse_from_fixed by assumption.
  rewrite trim_start_fixed by assumption. exact H5.
Qed.

Lemma normalize_chars_shrinks y :
  normal_form y ->
  Exists (fun w => is_legal_suffix w = true) (words y) ->
  (length (normalize_chars y) < length y)%nat.
Proof.
  intros [H1 _ _ _ _] Hw. unfold normalize_chars, trim, collapse_ws.
  rewrite toLowerCase_fixed by assumption.
  assert (Hs : (length (strip_suffixes y) < length y)%nat).
  { unfold strip_suffixes. apply (strip_from_shrinks [] y).
    unfold words in Hw. apply Exists_exists in Hw as (w & Hin & Hw).
    apply Exists_exists. exists w. split; [|exact Hw].
    now apply list_elem_of_filter in Hin as [_ Hin]. }
  pose proof (trim_end_length
                (trim_start (collapse_from false (strip_punct (strip_suffixes y))))).
  pose proof (trim_start_length
                (collapse_from false (strip_punct (strip_suffixes y)))).
  pose proof (collapse_from_length false (strip_punct (strip_suffixes y))).
  pose proof (strip_punct_length (strip_suffixes y)).
  lia.
Qed.

Lemma normalize_chars_twice s :
  normalize_chars (normalize_chars s) = normalize_chars s
  <-> Forall (fun w => is_legal_suffix w = false) (words (normalize_chars s)).
Proof.
  pose proof (normalize_chars_normal_form s) as Hnf. split.
  - intros Heq.
    destruct (decide (Forall (fun w => is_legal_suffix w = false)
                        (words (normalize_chars s)))) as [H|H]; [exact H|].
    apply not_Forall_Exists in H; [|intros w; apply _].
    assert (He : Exists (fun w => is_legal_suffix w = true)
                   (words (normalize_chars s))).
    { eapply Exists_impl; [exact H|]. simpl. intros w Hw.
      now destruct (is_legal_suffix w). }
    apply (normalize_chars_shrinks _ Hnf) in He. rewrite Heq in He. lia.
  - now apply normalize_chars_fixed.
Qed.

End Idempotence.

(** C5, as the code has it.  Normalizing a normalized name changes nothing
    exactly when no word of the normalized name is a legal suffix.  (Such a
    word appears when removing punctuation joins letters into one, as in
    "L.L.C.", which the suffix pass has already gone past.) *)
Theorem normalize_twice (x : string) :
  normalizeCompanyName (normalizeCompanyName x) = normalizeCompanyName x
  <-> Forall (fun w => is_legal_suffix w = false)
        (words (chars (normalizeCompanyName x))).
Proof.
  unfold normalizeCompanyName. rewrite !chars_text.
  rewrite <- normalize_chars_twice. split.
  - intros H. apply (f_equal chars) in H. now rewrite !chars_text in H.
  - now intros ->.
Qed.

(** C5 as stated fails: "Acme L.L.C." normalizes to "acme llc", and that
    normalizes to "acme". *)
Lemma normalize_not_idempotent :
  normalizeCompanyName (normalizeCompanyName "Acme L.L.C.")
  <> normalizeCompanyName "Acme L.L.C.".
Proof. vm_compute. discriminate. Qed.
(** ** Properties of the classifier *)

Section Classifier.

Variables (companyName : string) (companyState : option string).

Implicit Types (m x : Match) (ms : list Match) (c : RawEntity).

Local Abbreviation desc := (fun x y : Match => (m_score y <= m_score x)%Q).
Local Abbreviation relevant := (fun m : Match => Qle_bool RELEVANCE_FLOOR (m_score m) = true).

Lemma scoreEntity_spec c m :
  scoreEntity companyName companyState c = Some m
  <-> combinedScore companyName companyState c = Some (m_score m)
      /\ m_entity m = normalizeSamEntity c /\ m_raw m = c.
Proof.
  unfold scoreEntity, combinedScore.
  destruct (matchScore companyName companyState (normalizeSamEntity c)) as [s|].
  - split.
    + intros [= <-]. auto.
    + destruct m as [e r q]. simpl. intros ([= ->] & -> & ->). reflexivity.
  - split; [discriminate|]. intros [H _]. discriminate H.
Qed.

Lemma scoreAll_Forall2 (cs : list RawEntity) ms :
  scoreAll companyName companyState cs = Some ms
  <-> Forall2 (fun c m => scoreEntity companyName companyState c = Some m) cs ms.
Proof.
  revert ms. induction cs as [|c cs IH]; intros ms; simpl.
  - split; [intros [= <-]; constructor|]. now inversion 1.
  - destruct (scoreEntity companyName companyState c) as [m|] eqn:Em.
    + destruct (scoreAll companyName companyState cs) as [ms'|].
      * split.
        -- intros [= <-]. constructor; [exact Em|]. now apply IH.
        -- inversion 1 as [|? m' ? ms'' Hm Hrest]; subst.
           apply IH in Hrest. congruence.
      * split; [discriminate|].
        inversion 1 as [|? m' ? ms'' Hm Hrest]; subst.
        apply IH in Hrest. discriminate.
    + split; [discriminate|]. inversion 1; congruence.
Qed.

Lemma scoreAll_defined (cs : list RawEntity) :
  (forall c, c ∈ cs -> is_Some (combinedScore companyName companyState c)) ->
  is_Some (scoreAll companyName companyState cs).
Proof.
  induction cs as [|c cs IH]; intros H; simpl; [eauto|].
  destruct (H c) as [s Hs]; [left|].
  unfold scoreEntity. unfold combinedScore in Hs. rewrite Hs.
  destruct IH as [ms ->]; [|eauto]. intros c' Hc'. apply H. now right.
Qed.

Lemma scored_elem (cs : list RawEntity) ms m :
  scoreAll companyName companyState cs = Some ms -> m ∈ ms ->
  exists c, c ∈ cs /\ scoreEntity companyName companyState c = Some m.
Proof.
  intros H Hin. apply scoreAll_Forall2 in H.
  induction H as [|c m' cs ms Hm _ IH].
  - now apply elem_of_nil in Hin.
  - apply elem_of_cons in Hin as [->|Hin].
    + exists c. split; [left|exact Hm].
    + destruct (IH Hin) as (c' & Hc' & Hs). exists c'. split; [now right|exact Hs].
Qed.

Lemma candidate_scored (cs : list RawEntity) ms c :
  scoreAll companyName companyState cs = Some ms -> c ∈ cs ->
  exists m, m ∈ ms /\ scoreEntity companyName companyState c = Some m.
Proof.
  intros H Hin. apply scoreAll_Forall2 in H.
  induction H as [|c' m cs ms Hm _ IH].
  - now apply elem_of_nil in Hin.
  - apply elem_of_cons in Hin as [->|Hin].
    + exists m. split; [left|exact Hm].
    + destruct (IH Hin) as (m' & Hm' & Hs). exists m'. split; [now right|exact Hs].
Qed.

(** *** The sort *)

Lemma insert_desc_elem m ms x : x ∈ insert_desc m ms <-> x = m \/ x ∈ ms.
Proof.
  induction ms as [|y ms IH]; simpl.
  - rewrite list_elem_of_singleton, elem_of_nil. tauto.
  - destruct (Qle_bool (m_score y) (m_score m)).
    + now rewrite elem_of_cons.
    + rewrite !elem_of_cons, IH. tauto.
Qed.

Lemma sort_desc_elem ms x : x ∈ sort_desc ms <-> x ∈ ms.
Proof.
  induction ms as [|y ms IH]; simpl; [reflexivity|].
  rewrite insert_desc_elem, elem_of_cons, IH. reflexivity.
Qed.

Lemma insert_desc_sorted m ms :
  StronglySorted desc ms -> StronglySorted desc (insert_desc m ms).
Proof.
  induction 1 as [|y ms Hs IH Hy]; simpl.
  - repeat constructor.
  - destruct (Qle_bool (m_score y) (m_score m)) eqn:E.
    + apply Qle_bool_iff in E. constructor; [now constructor|].
      constructor; [exact E|].
      eapply Forall_impl; [exact Hy|]. simpl. intros z Hz.
      now apply Qle_trans with (m_score y).
    + constructor; [exact IH|].
      apply Forall_forall. intros z Hz.
      apply insert_desc_elem in Hz as [->|Hz].
      * apply Qlt_le_weak, Qnot_le_lt. intros Hle.
        apply Qle_bool_iff in Hle. congruence.
      * rewrite Forall_forall in Hy. now apply Hy.
Qed.

Lemma sort_desc_sorted ms : StronglySorted desc (sort_desc ms).
Proof.
  induction ms; simpl; [constructor|now apply insert_desc_sorted].
Qed.

Lemma sort_desc_nil ms : sort_desc ms = [] <-> ms = [].
Proof.
  split; [|now intros ->]. intros H. destruct ms as [|m ms]; [reflexivity|].
  assert (Hin : m ∈ sort_desc (m :: ms)) by (apply sort_desc_elem; left).
  rewrite H in Hin. now apply elem_of_nil in Hin.
Qed.

Lemma sorted_head_max m ms x :
  StronglySorted desc (m :: ms) -> x ∈ m :: ms -> (m_score x <= m_score m)%Q.
Proof.
  intros Hs Hin. apply StronglySorted_inv in Hs as [_ Hall].
  apply elem_of_cons in Hin as [->|Hin]; [apply Qle_refl|].
  rewrite Forall_forall in Hall. now apply Hall.
Qed.

Lemma StronglySorted_take {A} (R : relation A) n (l : list A) :
  StronglySorted R l -> StronglySorted R (firstn n l).
Proof.
  intros Hs. revert n. induction Hs as [|a l Hs IH Hx]; intros [|n]; simpl;
    try constructor; auto.
  now apply Forall_take.
Qed.

Lemma StronglySorted_map {A B} (f : A -> B) (R : relation B) (l : list A) :
  StronglySorted (fun a b => R (f a) (f b)) l -> StronglySorted R (map f l).
Proof.
  induction 1 as [|a l Hs IH Hx]; simpl; constructor; [exact IH|].
  apply Forall_forall. intros y Hy. apply list_elem_of_In, in_map_iff in Hy.
  destruct Hy as (z & <- & Hz). rewrite Forall_forall in Hx.
  apply Hx. now apply list_elem_of_In.
Qed.

Lemma filter_all_out ms :
  (forall m, m ∈ ms -> Qle_bool RELEVANCE_FLOOR (m_score m) = false) ->
  filter relevant ms = [].
Proof.
  induction ms as [|m ms IH]; intros H; [reflexivity|].
  rewrite filter_cons_False.
  - apply IH. intros x Hx. apply H. now right.
  - rewrite (H m) by left. discriminate.
Qed.

(** The head of [matches] when some candidate clears the floor. *)
Lemma best_match (cs : list RawEntity) (best : Q) :
  best_score companyName companyState cs best ->
  (RELEVANCE_FLOOR <= best)%Q ->
  exists ms bestMatch rest c,
    scoreAll companyName companyState cs = Some ms
    /\ sort_desc (filter relevant ms) = bestMatch :: rest
    /\ c ∈ cs
    /\ scoreEntity companyName companyState c = Some bestMatch
    /\ (m_score bestMatch == best)%Q.
Proof.
  intros [Hall (cb & sb & Hcb & Hsb & Hbest)] Hfloor.
  destruct (scoreAll_defined cs) as [ms Hms].
  { intros c Hc. destruct (Hall c Hc) as (s & -> & _). eauto. }
  destruct (candidate_scored cs ms cb Hms Hcb) as (mb & Hmb & Hscore).
  pose proof Hscore as Hmb_s. apply scoreEntity_spec in Hmb_s as (Hmb_s & _).
  assert (Hsame : m_score mb = sb) by congruence.
  assert (Hin : mb ∈ sort_desc (filter relevant ms)).
  { apply sort_desc_elem, list_elem_of_filter. split; [|exact Hmb].
    apply Qle_bool_iff. rewrite Hsame. lra. }
  destruct (sort_desc (filter relevant ms)) as [|bm rest] eqn:Esort.
  { now apply elem_of_nil in Hin. }
  assert (Hbm : bm ∈ ms).
  { assert (H : bm ∈ sort_desc (filter relevant ms)) by (rewrite Esort; left).
    apply sort_desc_elem, list_elem_of_filter in H. tauto. }
  destruct (scored_elem cs ms bm Hms Hbm) as (c & Hc & Hcs).
  exists ms, bm, rest, c. repeat split; try assumption.
  pose proof Hcs as Hbm_s. apply scoreEntity_spec in Hbm_s as (Hbm_s & _).
  destruct (Hall c Hc) as (s & Hs & Hle).
  assert (m_score bm = s) by congruence.
  assert (Hmax : (m_score mb <= m_score bm)%Q).
  { apply (sorted_head_max bm rest); [|exact Hin].
    rewrite <- Esort. apply sort_desc_sorted. }
  subst. lra.
Qed.

End Classifier.

(** C1.  The classification of a list of retrieved candidates.
    - The empty list gives [NoMatch] with an empty sample.
    - When every candidate scores below 0.5, the outcome is [NoMatch] with
      the first candidates, at most five, as the sample.
    - When the best score is in [0.5, 0.55), the outcome is [Pending] with
      between one and five scored candidates, each the normalized form of
      a retrieved candidate paired with its score of at least 0.5, in
      descending order of score, the first carrying the best score.
    - When the best score is at least 0.55, the outcome is [Matched] with a
      candidate that attains the best score, and that score. *)
Theorem classification (companyName : string) (companyState : option string)
    (samEntities : list RawEntity) :
  (samEntities = [] -> classify companyName companyState samEntities = NoMatch [])
  /\ ((forall c, c ∈ samEntities ->
         exists s, combinedScore companyName companyState c = Some s
                   /\ (s < RELEVANCE_FLOOR)%Q) ->
      exists sample,
        classify companyName companyState samEntities = NoMatch sample
        /\ sample = firstn 5 samEntities /\ (length sample <= 5)%nat)
  /\ (forall best,
        best_score companyName companyState samEntities best ->
        (RELEVANCE_FLOOR <= best)%Q -> (best < AUTO_LINK)%Q ->
        exists top tops,
          classify companyName companyState samEntities = Pending (top :: tops)
          /\ (length (top :: tops) <= 5)%nat
          /\ descending (top :: tops)
          /\ (snd top == best)%Q
          /\ (forall e s, (e, s) ∈ top :: tops ->
                exists c, c ∈ samEntities /\ e = normalizeSamEntity c
                  /\ combinedScore companyName companyState c = Some s
                  /\ (RELEVANCE_FLOOR <= s)%Q))
  /\ (forall best,
        best_score companyName companyState samEntities best ->
        (AUTO_LINK <= best)%Q ->
        exists c s,
          c ∈ samEntities
          /\ combinedScore companyName companyState c = Some s
          /\ (s == best)%Q
          /\ classify companyName companyState samEntities
             = Matched (normalizeSamEntity c) c s).
Proof.
  split; [|split; [|split]].
  - now intros ->.
  - intros Hall. exists (firstn 5 samEntities).
    split; [|split; [reflexivity|apply firstn_le_length]].
    destruct samEntities as [|c0 cs] eqn:Ecs; [reflexivity|]. rewrite <- Ecs in *.
    destruct (scoreAll_defined companyName companyState samEntities) as [ms Hms].
    { intros c Hc. destruct (Hall c Hc) as (s & -> & _). eauto. }
    unfold classify. rewrite Hms, Ecs. rewrite <- Ecs.
    rewrite filter_all_out; [reflexivity|].
    intros m Hm.
    destruct (scored_elem _ _ _ _ m Hms Hm) as (c & Hc & Hs).
    apply scoreEntity_spec in Hs as (Hs & _).
    destruct (Hall c Hc) as (s & Hs' & Hlt).
    assert (m_score m = s) by congruence. subst s.
    destruct (Qle_bool RELEVANCE_FLOOR (m_score m)) eqn:E; [|reflexivity].
    apply Qle_bool_iff in E. lra.
  - intros best Hbest Hfloor Hauto.
    destruct (best_match _ _ _ _ Hbest Hfloor)
      as (ms & bm & rest & c & Hms & Hsort & Hc & Hcs & Hscore).
    exists (m_entity bm, m_score bm),
           (map (fun m => (m_entity m, m_score m)) (firstn 4 rest)).
    assert (Hcl : classify companyName companyState samEntities
                  = Pending (map (fun m => (m_entity m, m_score m))
                               (firstn 5 (bm :: rest)))).
    { unfold classify. destruct samEntities as [|c0 cs] eqn:Ecs.
      { now apply elem_of_nil in Hc. }
      rewrite <- Ecs in *. rewrite Hms, Hsort.
      destruct (Qle_bool AUTO_LINK (m_score bm)) eqn:E; [|reflexivity].
      apply Qle_bool_iff in E. lra. }
    assert (Hsorted : StronglySorted (fun x y => (m_score y <= m_score x)%Q)
                        (firstn 5 (bm :: rest))).
    { apply StronglySorted_take. rewrite <- Hsort. apply sort_desc_sorted. }
    split; [exact Hcl|]. split; [|split; [|split]].
    + change (length (map (fun m => (m_entity m, m_score m))
                        (firstn 5 (bm :: rest))) <= 5)%nat.
      rewrite length_map. apply firstn_le_length.
    + change (descending (map (fun m => (m_entity m, m_score m))
                            (firstn 5 (bm :: rest)))).
      apply (StronglySorted_map (fun m => (m_entity m, m_score m))
               (fun x y => (snd y <= snd x)%Q)).
      exact Hsorted.
    + exact Hscore.
    + intros e s Hes.
      change ((e, s) ∈ map (fun m => (m_entity m, m_score m))
                           (firstn 5 (bm :: rest))) in Hes.
      apply list_elem_of_In, in_map_iff in Hes as (m & [= <- <-] & Hm).
      apply list_elem_of_In, subseteq_take in Hm.
      rewrite <- Hsort in Hm.
      apply sort_desc_elem, list_elem_of_filter in Hm as [Hrel Hm].
      destruct (scored_elem _ _ _ _ m Hms Hm) as (c' & Hc' & Hs').
      apply scoreEntity_spec in Hs' as (Hs' & He & _).
      exists c'. repeat split; try assumption.
      now apply Qle_bool_iff.
  - intros best Hbest Hauto.
    assert (Hfloor : (RELEVANCE_FLOOR <= best)%Q)
      by (unfold RELEVANCE_FLOOR, AUTO_LINK in *; lra).
    destruct (best_match _ _ _ _ Hbest Hfloor)
      as (ms & bm & rest & c & Hms & Hsort & Hc & Hcs & Hscore).
    pose proof Hcs as Hspec. apply scoreEntity_spec in Hspec as (Hs & He & Hr).
    exists c, (m_score bm). repeat split; try assumption.
    unfold classify. destruct samEntities as [|c0 cs] eqn:Ecs.
    { now apply elem_of_nil in Hc. }
    rewrite <- Ecs in *. rewrite Hms, Hsort.
    destruct (Qle_bool AUTO_LINK (m_score bm)) eqn:E.
    + now rewrite He, Hr.
    + assert (Qle_bool AUTO_LINK (m_score bm) = true); [|congruence].
      apply Qle_bool_iff. lra.
Qed.

Lemma classification_witness :
  classify "Honeywell" None [] = NoMatch []
  /\ (exists sample,
        classify "Honeywell" None [candidate "Zebra Holdings" None None]
        = NoMatch sample
        /\ sample = firstn 5 [candidate "Zebra Holdings" None None]
        /\ (length sample <= 5)%nat)
  /\ (exists top tops,
        classify "Delta" None [candidate "Delta Airlines" None None]
        = Pending (top :: tops)
        /\ (length (top :: tops) <= 5)%nat
        /\ descending (top :: tops)
        /\ (snd top == 1 # 2)%Q
        /\ (forall e s, (e, s) ∈ top :: tops ->
              exists c, c ∈ [candidate "Delta Airlines" None None]
                /\ e = normalizeSamEntity c
                /\ combinedScore "Delta" None c = Some s
                /\ (RELEVANCE_FLOOR <= s)%Q))
  /\ (exists c s,
        c ∈ [candidate "Honeywell International Inc" None None]
        /\ combinedScore "Honeywell" None c = Some s
        /\ (s == 16 # 29)%Q
        /\ classify "Honeywell" None
             [candidate "Honeywell International Inc" None None]
           = Matched (normalizeSamEntity c) c s).
Proof.
  split; [|split; [|split]].
  - apply (classification "Honeywell" None []). reflexivity.
  - apply (classification "Honeywell" None [candidate "Zebra Holdings" None None]).
    intros c Hc. apply list_elem_of_singleton in Hc. subst c.
    exists (2 # 20)%Q. split; [vm_compute; reflexivity|reflexivity].
  - apply (classification "Delta" None [candidate "Delta Airlines" None None]).
    + split.
      * intros c Hc. apply list_elem_of_singleton in Hc. subst c.
        exists (8 # 16)%Q. split; [vm_compute; reflexivity|].
        vm_compute. discriminate.
      * exists (candidate "Delta Airlines" None None), (8 # 16)%Q.
        split; [apply list_elem_of_singleton; reflexivity|].
        split; [vm_compute; reflexivity|reflexivity].
    + vm_compute. discriminate.
    + reflexivity.
  - apply (classification "Honeywell" None
             [candidate "Honeywell International Inc" None None]).
    + split.
      * intros c Hc. apply list_elem_of_singleton in Hc. subst c.
        exists (16 # 29)%Q. split; [vm_compute; reflexivity|].
        vm_compute. discriminate.
      * exists (candidate "Honeywell International Inc" None None), (16 # 29)%Q.
        split; [apply list_elem_of_singleton; reflexivity|].
        split; [vm_compute; reflexivity|reflexivity].
    + vm_compute. discriminate.
Defined.
(** ** Properties of the deduplicator *)

(** C9.  A key without a live marker is processed and marked; a second
    check less than 30 seconds after the mark is skipped and leaves the
    markers as they are; a third check 30 seconds or more after the mark is
    processed again and overwrites the mark.  The clock reads positive
    times (milliseconds since the epoch). *)
Theorem dedup_window (dedupKey : string) (recentlyProcessed : gmap string Z)
    (t1 t1' t2 t2' t3 t3' : Z) :
  no_live_marker recentlyProcessed dedupKey t1 ->
  0 < t1' ->
  t2 - t1' < DEDUP_TTL ->
  DEDUP_TTL <= t3 - t1' ->
  let first := shouldProcess dedupKey t1 t1' recentlyProcessed in
  let second := shouldProcess dedupKey t2 t2' (snd first) in
  let third := shouldProcess dedupKey t3 t3' (snd second) in
  fst first = true
  /\ snd first !! dedupKey = Some t1'
  /\ fst second = false
  /\ snd second = snd first
  /\ fst third = true
  /\ snd third !! dedupKey = Some t3'.
Proof.
  intros Hfresh Hpos Hin Hout. cbv zeta.
  assert (H1 : shouldProcess dedupKey t1 t1' recentlyProcessed
               = (true, <[dedupKey := t1']> recentlyProcessed)).
  { unfold shouldProcess. unfold no_live_marker in Hfresh.
    destruct (recentlyProcessed !! dedupKey) as [t0|]; [|reflexivity].
    destruct (negb (t0 =? 0) && (t1 - t0 <? DEDUP_TTL)) eqn:E; [|reflexivity].
    apply andb_true_iff in E as [E1 E2].
    apply negb_true_iff, Z.eqb_neq in E1. apply Z.ltb_lt in E2. lia. }
  rewrite H1. cbn [fst snd].
  assert (H2 : shouldProcess dedupKey t2 t2' (<[dedupKey := t1']> recentlyProcessed)
               = (false, <[dedupKey := t1']> recentlyProcessed)).
  { unfold shouldProcess. rewrite lookup_insert_eq.
    replace (t1' =? 0) with false by (symmetry; apply Z.eqb_neq; lia).
    replace (t2 - t1' <? DEDUP_TTL) with true by (symmetry; apply Z.ltb_lt; lia).
    reflexivity. }
  rewrite H2. cbn [fst snd].
  assert (H3 : shouldProcess dedupKey t3 t3' (<[dedupKey := t1']> recentlyProcessed)
               = (true, <[dedupKey := t3']> (<[dedupKey := t1']> recentlyProcessed))).
  { unfold shouldProcess. rewrite lookup_insert_eq.
    replace (t3 - t1' <? DEDUP_TTL) with false by (symmetry; apply Z.ltb_ge; lia).
    now rewrite andb_false_r. }
  rewrite H3. cbn [fst snd].
  rewrite !lookup_insert_eq. repeat split; reflexivity.
Qed.

Lemma dedup_window_witness :
  let first := shouldProcess "42-7" 1000 1001 ∅ in
  let second := shouldProcess "42-7" 20000 20001 (snd first) in
  let third := shouldProcess "42-7" 31001 31002 (snd second) in
  fst first = true
  /\ snd first !! "42-7"%string = Some 1001
  /\ fst second = false
  /\ snd second = snd first
  /\ fst third = true
  /\ snd third !! "42-7"%string = Some 31002.
Proof.
  apply (dedup_window "42-7" ∅ 1000 1001 20000 20001 31001 31002).
  - exact I.
  - lia.
  - vm_compute. reflexivity.
  - vm_compute. discriminate.
Defined.
(** ** Properties of the retrieval chain *)

Section Traces.

Implicit Types (t : list Event) (fs : list (Query * FetchResult)).

Lemma fetches_app t1 t2 : fetches (t1 ++ t2) = fetches t1 ++ fetches t2.
Proof.
  induction t1 as [|e t1 IH]; simpl; [reflexivity|].
  destruct e; simpl; now rewrite IH.
Qed.

Lemma queries_app t1 t2 : queries (t1 ++ t2) = queries t1 ++ queries t2.
Proof. unfold queries. now rewrite fetches_app, map_app. Qed.

Lemma quiet_stops fs : quiet fs -> stops_at_first_result fs.
Proof.
  intros H pre x post -> _. unfold quiet in H.
  rewrite Forall_app, Forall_cons in H. tauto.
Qed.

Lemma quiet_app_stops fs1 fs2 :
  quiet fs1 -> stops_at_first_result fs2 -> stops_at_first_result (fs1 ++ fs2).
Proof.
  intros Hq Hs pre x post Heq Hpost.
  assert (Hx : x ∈ fs1 \/ exists pre', fs2 = pre' ++ x :: post).
  { clear Hq Hs Hpost. revert pre Heq.
    induction fs1 as [|y fs1 IH]; intros pre Heq; simpl in Heq.
    - right. now exists pre.
    - destruct pre as [|p pre]; simpl in Heq.
      + injection Heq as -> _. left. left.
      + injection Heq as _ Heq. destruct (IH pre Heq) as [H|H]; [|now right].
        left. now right. }
  destruct Hx as [Hx|(pre' & ->)].
  - unfold quiet in Hq. rewrite Forall_forall in Hq. now apply Hq.
  - now apply (Hs pre' x post).
Qed.

Lemma ends_with_app l fs1 fs2 : ends_with l fs2 -> ends_with l (fs1 ++ fs2).
Proof.
  intros (pre & q & resp & -> & Hok & Hb).
  exists (fs1 ++ pre), q, resp. now rewrite app_assoc.
Qed.

Lemma ends_broken_app fs1 fs2 : ends_broken fs2 -> ends_broken (fs1 ++ fs2).
Proof.
  intros (pre & q & res & -> & H).
  exists (fs1 ++ pre), q, res. now rewrite app_assoc.
Qed.

Lemma settled_app r fs1 fs2 :
  quiet fs1 -> settled r fs2 -> settled r (fs1 ++ fs2).
Proof.
  intros Hq. unfold settled, quiet.
  destruct r as [[[|c l]|]|]; rewrite ?Forall_app;
    auto using ends_with_app.
  intros [H1 H2]. auto using ends_broken_app.
Qed.

Lemma ends_with_has_results l fs :
  l <> [] -> ends_with l fs -> ~ quiet fs.
Proof.
  intros Hl (pre & q & resp & -> & Hok & Hb) Hq.
  unfold quiet in Hq. rewrite Forall_app, Forall_singleton in Hq.
  destruct Hq as [_ Hq]. simpl in Hq. rewrite Hok, Hb in Hq.
  destruct l; [congruence|discriminate].
Qed.

End Traces.

Section Retrieval.

Context (E : Env).

Implicit Types (w : World E) (q : Query) (t : list Event).

(** Running a sequence: the first part returns and the second runs in the
    world it left, or the first part throws. *)
Lemma bind_run {A B} (m : M E A) (f : A -> M E B) w r t w' :
  (m ≫= f) w = (r, t, w') ->
  (exists a t1 w1 t2,
      m w = (Returned a, t1, w1) /\ f a w1 = (r, t2, w') /\ t = t1 ++ t2)
  \/ (m w = (Threw, t, w') /\ r = Threw).
Proof.
  unfold mbind, M_bind. destruct (m w) as [[[a|] t1] w1].
  - destruct (f a w1) as [[r2 t2] w2] eqn:Ef. intros [= <- <- <-].
    left. exists a, t1, w1, t2. auto.
  - intros [= <- <- <-]. right. auto.
Qed.

(** The runs of [samFetch], by the answers of the registry. *)
Lemma samFetch_eq q w :
  samFetch E q w =
  let '(res1, b1) := fetch E q (outside w) in
  let w1 := Build_World E b1 (searchCache w) in
  match res1 with
  | NetworkError => (Threw, [Fetched q res1], w1)
  | Responded r1 =>
      if status r1 =? 429 then
        let '(res2, b2) := fetch E q b1 in
        (match res2 with
         | NetworkError => Threw
         | Responded r2 =>
             if ok r2 then
               match body r2 with BadJson => Threw | Json d => Returned d end
             else Returned (Some [])
         end,
         [Fetched q res1; Delayed 2000; Fetched q res2],
         Build_World E b2 (searchCache w))
      else
        (if ok r1 then
           match body r1 with BadJson => Threw | Json d => Returned d end
         else Returned (Some []),
         [Fetched q res1], w1)
  end.
Proof.
  unfold samFetch, do_fetch, call, delay, emit, json, throw.
  unfold mbind, mret, M_bind, M_ret. simpl.
  destruct (fetch E q (outside w)) as [[|r1] b1]; simpl; [reflexivity|].
  destruct (status r1 =? 429); simpl.
  - destruct (fetch E q b1) as [[|r2] b2]; simpl; [reflexivity|].
    destruct (ok r2); simpl; [|reflexivity].
    destruct (body r2); reflexivity.
  - destruct (ok r1); simpl; [|reflexivity].
    destruct (body r1); reflexivity.
Qed.

Lemma status_429_not_ok (r : Response) : (status r =? 429) = true -> ok r = false.
Proof.
  intros H. apply Z.eqb_eq in H. unfold ok. rewrite H. reflexivity.
Qed.

Lemma has_results_not_ok (r : Response) :
  ok r = false -> has_results (Responded r) = false.
Proof. intros H. simpl. now rewrite H. Qed.

(** One strategy sends its request once or twice, nothing follows a
    response with records, and the way it ends shows in its last response. *)
Lemma samFetch_run q w r t w' :
  samFetch E q w = (r, t, w') ->
  exists k, queries t = repeat q k /\ (1 <= k <= 2)%nat
    /\ stops_at_first_result (fetches t) /\ settled r (fetches t).
Proof.
  rewrite samFetch_eq.
  destruct (fetch E q (outside w)) as [[|r1] b1].
  - intros [= <- <- <-]. exists 1%nat. simpl.
    assert (Hq : quiet [(q, NetworkError)]) by (repeat constructor).
    repeat split; try lia; [now apply quiet_stops|exact Hq|].
    exists [], q, NetworkError. auto.
  - destruct (status r1 =? 429) eqn:E429.
    + destruct (fetch E q b1) as [res2 b2]. intros [= <- <- <-].
      exists 2%nat. simpl fetches. unfold queries. simpl map.
      assert (Hq1 : quiet [(q, Responded r1)]).
      { repeat constructor. simpl.
        now rewrite (status_429_not_ok r1 E429). }
      assert (Hs : stops_at_first_result [(q, Responded r1); (q, res2)]).
      { apply (quiet_app_stops [(q, Responded r1)] [(q, res2)] Hq1).
        intros [|p pre] x post; simpl; [intros [= <- <-]; congruence|].
        intros [= _ H]. now destruct pre. }
      repeat split; try lia; [exact Hs|].
      apply (settled_app _ [(q, Responded r1)] [(q, res2)] Hq1).
      destruct res2 as [|r2]; simpl.
      * split; [repeat constructor|]. exists [], q, NetworkError. auto.
      * destruct (ok r2) eqn:Eok.
        -- destruct (body r2) as [|[[|c l]|]] eqn:Eb; simpl;
             try (repeat constructor; simpl; rewrite Eok, Eb; reflexivity).
           ++ split; [repeat constructor; simpl; now rewrite Eok, Eb|].
              exists [], q, (Responded r2). split; [reflexivity|].
              right. exists r2. auto.
           ++ exists [], q, r2. auto.
        -- repeat constructor. now apply has_results_not_ok.
    + intros [= <- <- <-]. exists 1%nat. simpl fetches. unfold queries. simpl map.
      assert (Hs : stops_at_first_result [(q, Responded r1)]).
      { intros [|p pre] x post; simpl; [intros [= <- <-]; congruence|].
        intros [= _ H]. now destruct pre. }
      repeat split; try lia; [exact Hs|].
      destruct (ok r1) eqn:Eok.
      * destruct (body r1) as [|[[|c l]|]] eqn:Eb; simpl;
          try (repeat constructor; simpl; rewrite Eok, Eb; reflexivity).
        -- split; [repeat constructor; simpl; now rewrite Eok, Eb|].
           exists [], q, (Responded r1). split; [reflexivity|].
           right. exists r1. auto.
        -- exists [], q, r1. auto.
      * repeat constructor. now apply has_results_not_ok.
Qed.

Lemma stage_step applies q data w r t w' fs0 :
  stage E applies q data w = (r, t, w') ->
  stops_at_first_result fs0 -> settled (Returned data) fs0 ->
  exists k, queries t = repeat q k /\ (k <= 2)%nat
    /\ (0 < k -> applies = true /\ no_results data = true)%nat
    /\ (k = 0%nat -> r = Returned data /\ t = [] /\ w' = w
                     /\ (no_results data = true -> applies = false))
    /\ stops_at_first_result (fs0 ++ fetches t)
    /\ settled r (fs0 ++ fetches t).
Proof.
  intros Hrun Hstops Hsettled. unfold stage in Hrun.
  destruct (no_results data && applies) eqn:Eg.
  - apply andb_true_iff in Eg as [Hno Happ].
    apply bind_run in Hrun as [(u & t1 & w1 & t2 & Hd & Hf & ->)|[Hd _]];
      [|discriminate Hd].
    injection Hd as _ <- <-.
    destruct (samFetch_run q w r t2 w' Hf) as (k & Hk & Hk12 & Hs & Hset).
    assert (Hq0 : quiet fs0).
    { destruct data as [[|c l]|]; simpl in *; try assumption. discriminate. }
    exists k. simpl. unfold queries in *. simpl.
    repeat split; try assumption; try lia.
    + now apply quiet_app_stops.
    + now apply settled_app.
  - injection Hrun as <- <- <-. exists 0%nat. simpl. rewrite app_nil_r.
    repeat split; try assumption; try lia.
    intros Hno. rewrite Hno in Eg. exact Eg.
Qed.

Lemma bind_ext {A B} (m m' : M E A) (f g : A -> M E B) w :
  m w = m' w -> (forall a w1, f a w1 = g a w1) ->
  (m ≫= f) w = (m' ≫= g) w.
Proof.
  intros Hm Hf. unfold mbind, M_bind. rewrite <- Hm.
  destruct (m w) as [[[a|] t1] w1]; [rewrite Hf|]; reflexivity.
Qed.

Lemma searchSamApi_staged name state domain w :
  searchSamApi E name state domain w =
  (data ← samFetch E (strategy1 name state);
   data ← stage E (truthy state) (strategy2 name) data;
   data ← stage E (truthy domain) (strategy3 domain) data;
   data ← stage E true (strategy4 name) data;
   mret (default [] data)) w.
Proof.
  unfold searchSamApi, stage, strategy1, strategy2, strategy3, strategy4.
  apply bind_ext; [reflexivity|]. intros d1 w1.
  apply bind_ext; [reflexivity|]. intros d2 w2.
  apply bind_ext.
  { unfold as_truthy. destruct (truthy domain) eqn:Ed.
    - destruct domain as [url|]; [|discriminate Ed].
      now rewrite andb_true_r.
    - now rewrite andb_false_r. }
  intros d3 w3.
  apply bind_ext; [now rewrite andb_true_r|]. reflexivity.
Qed.

(** Every run of [searchSamApi]: [k1] to [k4] count the requests of the
    four strategies. *)
Lemma searchSamApi_run name state domain w r t w' :
  searchSamApi E name state domain w = (r, t, w') ->
  exists k1 k2 k3 k4 : nat,
    queries t = repeat (strategy1 name state) k1
                ++ repeat (strategy2 name) k2
                ++ repeat (strategy3 domain) k3
                ++ repeat (strategy4 name) k4
    /\ (1 <= k1 <= 2 /\ k2 <= 2 /\ k3 <= 2 /\ k4 <= 2)%nat
    /\ ((0 < k2)%nat -> truthy state = true)
    /\ ((0 < k3)%nat -> truthy domain = true)
    /\ ((0 < k3)%nat -> truthy state = true -> (0 < k2)%nat)
    /\ ((0 < k4)%nat -> (truthy state = true -> (0 < k2)%nat)
                        /\ (truthy domain = true -> (0 < k3)%nat))
    /\ (r = Returned [] -> (0 < k4)%nat)
    /\ stops_at_first_result (fetches t)
    /\ chain_end r (fetches t).
Proof.
  rewrite searchSamApi_staged. intros Hrun.
  apply bind_run in Hrun as [(d1 & t1 & w1 & ta & H1 & Hrun & ->)|[H1 ->]].
  2:{ destruct (samFetch_run _ _ _ _ _ H1) as (k1 & Hk1 & Hb1 & Hs1 & Hset1).
      exists k1, 0%nat, 0%nat, 0%nat. simpl. rewrite !app_nil_r.
      repeat split; try assumption; try lia; try discriminate;
        apply Hset1. }
  destruct (samFetch_run _ _ _ _ _ H1) as (k1 & Hk1 & Hb1 & Hs1 & Hset1).
  apply bind_run in Hrun as [(d2 & t2 & w2 & tb & H2 & Hrun & ->)|[H2 ->]].
  2:{ destruct (stage_step _ _ _ _ _ _ _ _ H2 Hs1 Hset1)
        as (k2 & Hk2 & Hb2 & Hon2 & Hoff2 & Hs2 & Hset2).
      exists k1, k2, 0%nat, 0%nat. simpl. rewrite !app_nil_r.
      rewrite queries_app, fetches_app, Hk1, Hk2.
      assert (k2 <> 0)%nat by (intros ->; destruct Hoff2 as [? _]; [reflexivity|discriminate]).
      repeat split; try assumption; try lia; try discriminate;
        try apply Hset2; try apply Hon2; lia. }
  destruct (stage_step _ _ _ _ _ _ _ _ H2 Hs1 Hset1)
    as (k2 & Hk2 & Hb2 & Hon2 & Hoff2 & Hs2 & Hset2).
  rewrite <- fetches_app in Hs2, Hset2.
  apply bind_run in Hrun as [(d3 & t3 & w3 & tc & H3 & Hrun & ->)|[H3 ->]].
  2:{ destruct (stage_step _ _ _ _ _ _ _ _ H3 Hs2 Hset2)
        as (k3 & Hk3 & Hb3 & Hon3 & Hoff3 & Hs3 & Hset3).
      rewrite <- fetches_app in Hs3, Hset3.
      exists k1, k2, k3, 0%nat. simpl. rewrite !app_nil_r.
      rewrite !queries_app, Hk1, Hk2, Hk3. rewrite <- !app_assoc in *.
      assert (k3 <> 0)%nat by (intros ->; destruct Hoff3 as [? _]; [reflexivity|discriminate]).
      assert (Hno2 : no_results d2 = true) by (apply Hon3; lia).
      repeat split; try assumption; try lia; try discriminate;
        try apply Hset3; try (apply Hon2; lia); try (apply Hon3; lia).
      intros _ Hst. destruct k2; [|lia].
      destruct Hoff2 as ([= <-] & _ & _ & Hoff2); [reflexivity|].
      rewrite Hoff2 in Hst by assumption. discriminate. }
  destruct (stage_step _ _ _ _ _ _ _ _ H3 Hs2 Hset2)
    as (k3 & Hk3 & Hb3 & Hon3 & Hoff3 & Hs3 & Hset3).
  rewrite <- fetches_app in Hs3, Hset3.
  assert (Hskip2 : (0 < k3)%nat -> truthy state = true -> (0 < k2)%nat).
  { intros Hk Hst. destruct k2; [|lia].
    destruct Hoff2 as ([= <-] & _ & _ & Hoff2); [reflexivity|].
    destruct Hon3 as [_ Hno2]; [exact Hk|].
    rewrite Hoff2 in Hst by assumption. discriminate. }
  assert (Hd3 : no_results d3 = true ->
                (truthy state = true -> (0 < k2)%nat)
                /\ (truthy domain = true -> (0 < k3)%nat)).
  { intros Hno3.
    assert (Hno2 : no_results d2 = true).
    { destruct k3.
      - destruct Hoff3 as ([= <-] & _); [reflexivity|assumption].
      - apply Hon3. lia. }
    split.
    - intros Hst. destruct k2; [|lia].
      destruct Hoff2 as ([= <-] & _ & _ & Hoff2); [reflexivity|].
      rewrite Hoff2 in Hst by assumption. discriminate.
    - intros Hdm. destruct k3; [|lia].
      destruct Hoff3 as ([= <-] & _ & _ & Hoff3); [reflexivity|].
      rewrite Hoff3 in Hdm by assumption. discriminate. }
  apply bind_run in Hrun as [(d4 & t4 & w4 & td & H4 & Hrun & ->)|[H4 ->]].
  2:{ destruct (stage_step _ _ _ _ _ _ _ _ H4 Hs3 Hset3)
        as (k4 & Hk4 & Hb4 & Hon4 & Hoff4 & Hs4 & Hset4).
      rewrite <- fetches_app in Hs4, Hset4.
      exists k1, k2, k3, k4.
      rewrite !queries_app, Hk1, Hk2, Hk3, Hk4. rewrite <- !app_assoc in *.
      repeat split; try assumption; try lia; try discriminate;
        try apply Hset4; try (apply Hon2; lia); try (apply Hon3; lia);
        apply Hd3; apply Hon4; assumption. }
  destruct (stage_step _ _ _ _ _ _ _ _ H4 Hs3 Hset3)
    as (k4 & Hk4 & Hb4 & Hon4 & Hoff4 & Hs4 & Hset4).
  rewrite <- fetches_app in Hs4, Hset4.
  injection Hrun as <- <- <-. rewrite app_nil_r.
  exists k1, k2, k3, k4.
  rewrite !queries_app, Hk1, Hk2, Hk3, Hk4. rewrite <- !app_assoc in *.
  repeat split; try assumption; try lia;
    try (apply Hon2; lia); try (apply Hon3; lia);
    try (apply Hd3; apply Hon4; assumption).
  - intros Hr. destruct k4; [|lia].
    destruct Hoff4 as (Heq & _ & _ & Hoff4); [reflexivity|].
    injection Heq as ->.
    destruct d3 as [[|c l]|]; simpl in Hr; try discriminate;
      now specialize (Hoff4 eq_refl).
  - destruct d4 as [[|c l]|]; exact Hset4.
Qed.

End Retrieval.
Section Chain.

Context (E : Env).

Implicit Types (w : World E) (q : Query) (t : list Event).

Lemma first_strategy_suffices name state domain w l t1 w1 :
  samFetch E (strategy1 name state) w = (Returned (Some l), t1, w1) ->
  l <> [] ->
  searchSamApi E name state domain w = (Returned l, t1, w1).
Proof.
  intros H Hl. rewrite searchSamApi_staged.
  destruct l as [|c l]; [congruence|].
  unfold mbind, M_bind. rewrite H. unfold stage. simpl.
  unfold mret, M_ret. simpl. now rewrite !app_nil_r.
Qed.

Lemma samFetch_http_only q w :
  http_only E -> exists d t w', samFetch E q w = (Returned d, t, w').
Proof.
  intros Hhttp. rewrite samFetch_eq.
  destruct (Hhttp q (outside w)) as (r1 & b1 & -> & Hj1).
  destruct (status r1 =? 429).
  - destruct (Hhttp q b1) as (r2 & b2 & -> & Hj2).
    destruct (ok r2); [|eauto].
    destruct (body r2); [now destruct Hj2|eauto].
  - destruct (ok r1); [|eauto].
    destruct (body r1); [now destruct Hj1|eauto].
Qed.

Lemma stage_http_only applies q data w :
  http_only E -> exists d t w', stage E applies q data w = (Returned d, t, w').
Proof.
  intros Hhttp. unfold stage.
  destruct (no_results data && applies); [|unfold mret, M_ret; eauto].
  unfold mbind, M_bind, delay, emit.
  destruct (samFetch_http_only q w Hhttp) as (d & t & w' & ->). eauto.
Qed.

Lemma searchSamApi_http_only name state domain w :
  http_only E ->
  exists l t w', searchSamApi E name state domain w = (Returned l, t, w').
Proof.
  intros Hhttp. rewrite searchSamApi_staged. unfold mbind, M_bind.
  destruct (samFetch_http_only (strategy1 name state) w Hhttp)
    as (d1 & t1 & w1 & ->).
  destruct (stage_http_only (truthy state) (strategy2 name) d1 w1 Hhttp)
    as (d2 & t2 & w2 & ->).
  destruct (stage_http_only (truthy domain) (strategy3 domain) d2 w2 Hhttp)
    as (d3 & t3 & w3 & ->).
  destruct (stage_http_only true (strategy4 name) d3 w3 Hhttp)
    as (d4 & t4 & w4 & ->).
  unfold mret, M_ret. eauto.
Qed.

End Chain.

(** C7.  The requests of a retrieval are those of strategy 1 (name with
    the state, when there is one), then strategy 2 (name only), then
    strategy 3 (domain), then strategy 4 (keyword), each sent at most
    twice; strategy 2 sends a request only when a state hint was given and
    strategy 3 only when a domain hint was given; no request follows a
    response that carried records; and when strategy 1 returns records the
    retrieval is the run of strategy 1 alone, returning those records. *)
Theorem retrieval_chain (E : Env) (name : string) (state domain : option string)
    (w : World E) :
  let run := searchSamApi E name state domain w in
  let t := snd (fst run) in
  (exists k1 k2 k3 k4 : nat,
      queries t = repeat (strategy1 name state) k1
                  ++ repeat (strategy2 name) k2
                  ++ repeat (strategy3 domain) k3
                  ++ repeat (strategy4 name) k4
      /\ (1 <= k1 <= 2 /\ k2 <= 2 /\ k3 <= 2 /\ k4 <= 2)%nat
      /\ ((0 < k2)%nat -> truthy state = true)
      /\ ((0 < k3)%nat -> truthy domain = true))
  /\ stops_at_first_result (fetches t)
  /\ (forall l t1 w1,
        samFetch E (strategy1 name state) w = (Returned (Some l), t1, w1) ->
        l <> [] ->
        run = (Returned l, t1, w1)).
Proof.
  cbv zeta.
  destruct (searchSamApi E name state domain w) as [[r t] w'] eqn:Hrun.
  destruct (searchSamApi_run E _ _ _ _ _ _ _ Hrun)
    as (k1 & k2 & k3 & k4 & Hq & Hb & H2 & H3 & _ & _ & _ & Hs & _).
  simpl. split; [|split].
  - exists k1, k2, k3, k4. auto.
  - exact Hs.
  - intros l t1 w1 H Hl. rewrite <- Hrun.
    now apply first_strategy_suffices.
Qed.

Lemma retrieval_chain_witness :
  searchSamApi (scripted None false) "Honeywell" (Some "NJ"%string)
    (Some "honeywell.com"%string)
    (start None false
       [found [candidate "Honeywell International Inc" None (Some "NJ"%string)]])
  = (Returned [candidate "Honeywell International Inc" None (Some "NJ"%string)],
     [Fetched (ByName "honeywell" (Some "NJ"%string))
        (found [candidate "Honeywell International Inc" None (Some "NJ"%string)])],
     start None false []).
Proof.
  apply (retrieval_chain (scripted None false) "Honeywell" (Some "NJ"%string)
           (Some "honeywell.com"%string)
           (start None false
              [found [candidate "Honeywell International Inc" None
                        (Some "NJ"%string)]])).
  - vm_compute. reflexivity.
  - discriminate.
Defined.

(** C8.  Within one strategy, a response with status 429 is followed by
    the 2000 ms pause and exactly one more request with the same
    parameters; a retry that is not OK, or a first response that is not OK
    and not 429, makes the strategy return no records without throwing.
    A retrieval throws only when its last request was rejected or got a
    2xx response whose body is not JSON; when no response carried records
    and nothing was thrown, every strategy that applies was tried and the
    result is the empty list; and against a registry whose only failures
    are HTTP failures a retrieval always returns a list. *)
Theorem failures_give_no_records (E : Env) :
  (forall q (w : World E) r1 b1 res2 b2,
      fetch E q (outside w) = (Responded r1, b1) ->
      status r1 = 429 ->
      fetch E q b1 = (res2, b2) ->
      exists r,
        samFetch E q w
        = (r, [Fetched q (Responded r1); Delayed 2000; Fetched q res2],
           Build_World E b2 (searchCache w))
        /\ (forall r2, res2 = Responded r2 -> ok r2 = false ->
              r = Returned (Some [])))
  /\ (forall q (w : World E) r1 b1,
        fetch E q (outside w) = (Responded r1, b1) ->
        status r1 <> 429 -> ok r1 = false ->
        samFetch E q w
        = (Returned (Some []), [Fetched q (Responded r1)],
           Build_World E b1 (searchCache w)))
  /\ (forall name state domain (w : World E) r t w',
        searchSamApi E name state domain w = (r, t, w') ->
        (r = Threw -> ends_broken (fetches t))
        /\ (quiet (fetches t) -> r <> Threw ->
            r = Returned []
            /\ exists k1 k2 k3 k4 : nat,
                 queries t = repeat (strategy1 name state) k1
                             ++ repeat (strategy2 name) k2
                             ++ repeat (strategy3 domain) k3
                             ++ repeat (strategy4 name) k4
                 /\ (1 <= k1)%nat /\ (1 <= k4)%nat
                 /\ (truthy state = true -> (1 <= k2)%nat)
                 /\ (truthy domain = true -> (1 <= k3)%nat)))
  /\ (http_only E ->
      forall name state domain (w : World E),
      exists l t w', searchSamApi E name state domain w = (Returned l, t, w')).
Proof.
  split; [|split; [|split]].
  - intros q w r1 b1 res2 b2 H1 H429 H2. rewrite samFetch_eq, H1.
    rewrite H429. simpl. rewrite H2. eexists. split; [reflexivity|].
    intros r2 -> Hok. now rewrite Hok.
  - intros q w r1 b1 H1 H429 Hok. rewrite samFetch_eq, H1.
    replace (status r1 =? 429) with false by (symmetry; now apply Z.eqb_neq).
    now rewrite Hok.
  - intros name state domain w r t w' Hrun.
    destruct (searchSamApi_run E _ _ _ _ _ _ _ Hrun)
      as (k1 & k2 & k3 & k4 & Hq & Hb & H2 & H3 & _ & H4 & Hr & Hs & Hend).
    split.
    + intros ->. apply Hend.
    + intros Hquiet Hthrew.
      assert (Hnil : r = Returned []).
      { destruct r as [[|c l]|]; [reflexivity| |congruence].
        exfalso. now apply (ends_with_has_results (c :: l) (fetches t)). }
      split; [exact Hnil|]. specialize (Hr Hnil). specialize (H4 Hr).
      exists k1, k2, k3, k4. repeat split; try assumption; try lia;
        intros; apply H4; assumption.
  - intros Hhttp name state domain w.
    now apply searchSamApi_http_only.
Qed.

Lemma failures_give_no_records_witness :
  (exists r,
      samFetch (scripted None false) (ByKeyword "acme")
        (start None false [failed 429; failed 503])
      = (r, [Fetched (ByKeyword "acme") (failed 429); Delayed 2000;
             Fetched (ByKeyword "acme") (failed 503)],
         start None false [])
      /\ (forall r2, failed 503 = Responded r2 -> ok r2 = false ->
            r = Returned (Some [])))
  /\ samFetch (scripted None false) (ByKeyword "acme")
       (start None false [failed 404])
     = (Returned (Some []), [Fetched (ByKeyword "acme") (failed 404)],
        start None false [])
  /\ (exists l t w',
        searchSamApi unavailable "Acme" None None (Build_World unavailable tt ∅)
        = (Returned l, t, w')).
Proof.
  destruct (failures_give_no_records (scripted None false)) as (HA & HB & _).
  destruct (failures_give_no_records unavailable) as (_ & _ & _ & HD).
  split; [|split].
  - apply (HA (ByKeyword "acme") (start None false [failed 429; failed 503])
              {| status := 429; body := BadJson |} [failed 503]
              (failed 503) []); reflexivity.
  - apply (HB (ByKeyword "acme") (start None false [failed 404])
              {| status := 404; body := BadJson |} []);
      [reflexivity|discriminate|reflexivity].
  - apply HD. intros q b. exists {| status := 503; body := BadJson |}, tt.
    split; [reflexivity|]. simpl. discriminate.
Defined.
(** ** Properties of [processCompanyCreation] *)

(** C10, as the code has it.  When the company has no name, or the empty
    string as its name, the outcome is [Skipped]: nothing is looked up in
    the cache, no request goes to a backend, nothing is written. *)
Theorem nameless_company_skipped (E : Env) (companyId portalId : string)
    (w : World E) (companyProps : CompanyProps) (b : BState E) :
  getCompanyFromHubSpot E companyId portalId (outside w)
  = (Some companyProps, b) ->
  truthy (name companyProps) = false ->
  processCompanyCreation E companyId portalId w
  = (Returned Skipped, [], Build_World E b (searchCache w)).
Proof.
  intros Hget Hname.
  unfold processCompanyCreation, try_catch, call, mbind, M_bind.
  rewrite Hget. unfold as_truthy. rewrite Hname. reflexivity.
Qed.

Lemma nameless_company_skipped_witness :
  processCompanyCreation
    (scripted (Some {| name := Some ""%string; state := None; domain := None |})
       false)
    "1" "2"
    (start (Some {| name := Some ""%string; state := None; domain := None |})
       false [])
  = (Returned Skipped, [],
     start (Some {| name := Some ""%string; state := None; domain := None |})
       false []).
Proof.
  apply (nameless_company_skipped
           (scripted (Some {| name := Some ""%string; state := None;
                              domain := None |}) false)
           "1" "2"
           (start (Some {| name := Some ""%string; state := None;
                           domain := None |}) false [])
           {| name := Some ""%string; state := None; domain := None |} []);
    reflexivity.
Defined.

(** C10 as stated fails: the name "Inc" normalizes to the empty string and
    is still sent to the registry, twice, with an empty search name. *)
Lemma empty_normalized_name_is_retrieved :
  ~ (normalizeCompanyName "Inc" = ""%string ->
     queries
       (snd (fst
          (processCompanyCreation
             (scripted (Some {| name := Some "Inc"%string; state := None;
                                domain := None |}) false)
             "1" "2"
             (start (Some {| name := Some "Inc"%string; state := None;
                             domain := None |}) false []))))
     = []).
Proof.
  intros H. specialize (H eq_refl). vm_compute in H. discriminate H.
Qed.
(** ** Properties of the scorer *)

Section Scorer.

Implicit Types (bs : list string) (B : gset string).

Lemma count_matches_size bs B n :
  count_matches bs B n = (n + size (B ∩ list_to_set bs))%nat.
Proof.
  revert B n. induction bs as [|b bs IH]; intros B n; simpl.
  - replace (B ∩ ∅) with (∅ : gset string) by set_solver.
    rewrite size_empty. lia.
  - destruct (decide (b ∈ B)) as [Hin|Hout]; rewrite IH.
    + replace (B ∩ ({[b]} ∪ list_to_set bs))
        with ({[b]} ∪ (B ∖ {[b]}) ∩ list_to_set bs).
      * assert (size ({[b]} ∪ (B ∖ {[b]}) ∩ list_to_set bs)
                = S (size ((B ∖ {[b]}) ∩ list_to_set (C:=gset string) bs))) as ->.
        { rewrite size_union by set_solver. now rewrite size_singleton. }
        lia.
      * apply set_eq. intros x. destruct (decide (x = b)); set_solver.
    + f_equal. f_equal. set_solver.
Qed.

Lemma count_matches_distinct (s1 s2 : list ascii) :
  count_matches (bigrams s2) (distinct_bigrams s1) 0
  = size (distinct_bigrams s1 ∩ distinct_bigrams s2).
Proof. now rewrite count_matches_size. Qed.

End Scorer.

(** C4.  The scorer is symmetric: for all strings [a] and [b],
    [diceCoefficient a b] and [diceCoefficient b a] are the same number.
    The count of matches is the number of distinct bigrams the two folded
    strings share, whichever of them fills the set. *)
Theorem diceCoefficient_sym (a b : string) :
  diceCoefficient a b = diceCoefficient b a.
Proof.
  unfold diceCoefficient. cbv zeta.
  destruct (decide (fold_alnum a = fold_alnum b)) as [E|NE].
  - rewrite decide_True by (symmetry; exact E). reflexivity.
  - rewrite decide_False by (intros E; apply NE; symmetry; exact E).
    rewrite (orb_comm (length (fold_alnum b) <? 2)%nat).
    destruct ((length (fold_alnum a) <? 2)%nat || (length (fold_alnum b) <? 2)%nat);
      [reflexivity|].
    fold (distinct_bigrams (fold_alnum a)) (distinct_bigrams (fold_alnum b)).
    rewrite !count_matches_distinct.
    rewrite (comm_L (∩) (distinct_bigrams (fold_alnum b))).
    rewrite (Z.add_comm (Z.of_nat (length (fold_alnum b)))).
    reflexivity.
Qed.

(** C3, as the code has it.  For strings whose folded forms differ and
    have at least two characters each, the score is twice the number of
    distinct bigrams that occur in both folded strings, over the sum of
    the two lengths minus two. *)
Theorem diceCoefficient_distinct_bigrams (a b : string) :
  fold_alnum a ≠ fold_alnum b ->
  (2 <= length (fold_alnum a))%nat ->
  (2 <= length (fold_alnum b))%nat ->
  diceCoefficient a b
  = (inject_Z (2 * Z.of_nat (size (distinct_bigrams (fold_alnum a)
                                    ∩ distinct_bigrams (fold_alnum b))))
       / inject_Z (Z.of_nat (length (fold_alnum a))
                   + Z.of_nat (length (fold_alnum b)) - 2))%Q.
Proof.
  intros NE La Lb. unfold diceCoefficient. cbv zeta.
  rewrite decide_False by exact NE.
  replace (length (fold_alnum a) <? 2)%nat with false
    by (symmetry; apply Nat.ltb_ge; exact La).
  replace (length (fold_alnum b) <? 2)%nat with false
    by (symmetry; apply Nat.ltb_ge; exact Lb).
  simpl orb. cbv iota.
  fold (distinct_bigrams (fold_alnum a)).
  now rewrite count_matches_distinct.
Qed.

Lemma diceCoefficient_distinct_bigrams_witness :
  diceCoefficient "aaa" "aaaa"
  = (inject_Z (2 * Z.of_nat (size (distinct_bigrams (fold_alnum "aaa")
                                    ∩ distinct_bigrams (fold_alnum "aaaa"))))
       / inject_Z (Z.of_nat (length (fold_alnum "aaa"))
                   + Z.of_nat (length (fold_alnum "aaaa")) - 2))%Q.
Proof.
  apply (diceCoefficient_distinct_bigrams "aaa" "aaaa").
  - vm_compute. discriminate.
  - vm_compute. lia.
  - vm_compute. lia.
Defined.

(** C3 as stated fails: "aaa" and "aaaa" share the bigram "aa" twice as
    multisets, which would give 4/5, and the code returns 2/5. *)
Lemma diceCoefficient_multiset_counterexample :
  ~ (fold_alnum "aaa" ≠ fold_alnum "aaaa" ->
     (2 <= length (fold_alnum "aaa"))%nat ->
     (2 <= length (fold_alnum "aaaa"))%nat ->
     (diceCoefficient "aaa" "aaaa" == multiset_dice_formula "aaa" "aaaa")%Q).
Proof.
  intros H.
  assert (E : (diceCoefficient "aaa" "aaaa" == multiset_dice_formula "aaa" "aaaa")%Q).
  { apply H; vm_compute; first [discriminate | lia]. }
  vm_compute in E. discriminate E.
Qed.

(** C2.  Subject "Honeywell" against a record whose legal name is
    "Honeywell International Inc", with no trade name and no state hint:
    the combined score is the Dice score of the normalized names, 16/29,
    and it reaches the auto-link threshold 0.55. *)
Theorem honeywell_reaches_auto_link (raw : RawEntity) :
  reg_legalBusinessName raw = Some "Honeywell International Inc"%string ->
  truthy (reg_dbaName raw) = false ->
  matchScore "Honeywell" None (normalizeSamEntity raw)
  = Some (diceCoefficient (normalizeCompanyName "Honeywell")
            (normalizeCompanyName "Honeywell International Inc"))
  /\ (diceCoefficient (normalizeCompanyName "Honeywell")
        (normalizeCompanyName "Honeywell International Inc") == 16 # 29)%Q
  /\ (AUTO_LINK <= diceCoefficient (normalizeCompanyName "Honeywell")
        (normalizeCompanyName "Honeywell International Inc"))%Q.
Proof.
  intros Hlegal Hdba.
  assert (E : diceCoefficient (normalizeCompanyName "Honeywell")
                (normalizeCompanyName "Honeywell International Inc") = (16 # 29)%Q)
    by (vm_compute; reflexivity).
  split; [|split].
  - unfold matchScore, normalizeSamEntity; cbn [legalBusinessName dbaName].
    rewrite Hlegal. unfold or_else.
    change (truthy (Some "Honeywell International Inc"%string)) with true.
    cbv iota. rewrite E.
    destruct (reg_dbaName raw) as [dba|]; [rewrite Hdba|]; reflexivity.
  - rewrite E. reflexivity.
  - rewrite E. vm_compute. discriminate.
Qed.

Lemma honeywell_reaches_auto_link_witness :
  matchScore "Honeywell" None
    (normalizeSamEntity (candidate "Honeywell International Inc" None None))
  = Some (diceCoefficient (normalizeCompanyName "Honeywell")
            (normalizeCompanyName "Honeywell International Inc"))
  /\ (diceCoefficient (normalizeCompanyName "Honeywell")
        (normalizeCompanyName "Honeywell International Inc") == 16 # 29)%Q
  /\ (AUTO_LINK <= diceCoefficient (normalizeCompanyName "Honeywell")
        (normalizeCompanyName "Honeywell International Inc"))%Q.
Proof.
  apply (honeywell_reaches_auto_link
           (candidate "Honeywell International Inc" None None));
    reflexivity.
Defined.
(** ** The range of the scores *)

Section ScoreRange.

Lemma size_list_to_set_le (bs : list string) :
  (size (list_to_set bs : gset string) <= length bs)%nat.
Proof.
  induction bs as [|b bs IH].
  - rewrite list_to_set_nil, size_empty. reflexivity.
  - rewrite list_to_set_cons. cbn [length].
    pose proof (size_union_alt {[b]} (list_to_set bs : gset string)) as H.
    rewrite size_singleton in H.
    assert (size (list_to_set bs ∖ {[b]} : gset string)
            <= size (list_to_set bs : gset string))%nat
      by (apply subseteq_size; set_solver).
    lia.
Qed.

Lemma length_bigrams (s : list ascii) : length (bigrams s) = (length s - 1)%nat.
Proof.
  induction s as [|a [|b s] IH]; simpl in *; try reflexivity.
  rewrite IH. lia.
Qed.

Lemma ratio_in_unit (a b : Z) :
  0 <= a <= b -> 0 < b ->
  (0 <= inject_Z a / inject_Z b)%Q /\ (inject_Z a / inject_Z b <= 1)%Q.
Proof.
  intros Ha Hb. destruct b as [|p|p]; try lia.
  unfold Qdiv, Qmult, Qinv, Qle, inject_Z. simpl. lia.
Qed.

Lemma dice_in_unit (a b : string) :
  (0 <= diceCoefficient a b)%Q /\ (diceCoefficient a b <= 1)%Q.
Proof.
  unfold diceCoefficient. cbv zeta.
  destruct (decide (fold_alnum a = fold_alnum b)); [split; discriminate|].
  destruct ((length (fold_alnum a) <? 2)%nat || (length (fold_alnum b) <? 2)%nat)
    eqn:E; [split; discriminate|].
  apply orb_false_iff in E as [Ea Eb].
  apply Nat.ltb_ge in Ea, Eb.
  fold (distinct_bigrams (fold_alnum a)).
  rewrite count_matches_distinct.
  pose proof (size_list_to_set_le (bigrams (fold_alnum a))) as Ha.
  pose proof (size_list_to_set_le (bigrams (fold_alnum b))) as Hb.
  rewrite length_bigrams in Ha, Hb.
  assert (H1 : (size (distinct_bigrams (fold_alnum a) ∩ distinct_bigrams (fold_alnum b))
                <= size (distinct_bigrams (fold_alnum a)))%nat)
    by (apply subseteq_size; set_solver).
  assert (H2 : (size (distinct_bigrams (fold_alnum a) ∩ distinct_bigrams (fold_alnum b))
                <= size (distinct_bigrams (fold_alnum b)))%nat)
    by (apply subseteq_size; set_solver).
  unfold distinct_bigrams in *.
  apply ratio_in_unit; lia.
Qed.

End ScoreRange.

(** X1.  The Dice score of any two strings lies between 0 and 1. *)
Theorem diceCoefficient_range (a b : string) :
  (0 <= diceCoefficient a b)%Q /\ (diceCoefficient a b <= 1)%Q.
Proof. apply dice_in_unit. Qed.

(** X2.  The combined score of a candidate that has a legal name lies
    between 0 and 1, whatever its trade name and state. *)
Theorem matchScore_range (companyName : string) (companyState : option string)
    (normalized : SamEntity) (score : Q) :
  matchScore companyName companyState normalized = Some score ->
  (0 <= score)%Q /\ (score <= 1)%Q.
Proof.
  unfold matchScore.
  destruct (legalBusinessName normalized) as [legal|]; [|discriminate].
  intros [= <-].
  set (nameScore := diceCoefficient _ (normalizeCompanyName legal)).
  set (dbaScore := match dbaName normalized with Some _ => _ | None => _ end).
  set (stateBonus := match companyState with Some _ => _ | None => _ end).
  assert (Hn : (0 <= nameScore)%Q) by apply dice_in_unit.
  assert (Hb : (0 <= stateBonus)%Q).
  { unfold stateBonus. destruct companyState as [st|]; [|discriminate].
    repeat match goal with
           | |- context [if ?b then _ else _] => destruct b
           end; discriminate. }
  pose proof (Q.le_max_l nameScore dbaScore) as Hmax.
  set (best := Qmax nameScore dbaScore) in *.
  clearbody nameScore dbaScore stateBonus best.
  split.
  - apply Q.min_glb; [discriminate|lra].
  - apply Q.le_min_l.
Qed.

Lemma matchScore_range_witness :
  (0 <= 16 # 29)%Q /\ (16 # 29 <= 1)%Q.
Proof.
  apply (matchScore_range "Honeywell" None
           (normalizeSamEntity (candidate "Honeywell International Inc" None None))).
  vm_compute. reflexivity.
Defined.

(** X3.  A state hint never lowers the combined score and raises it by at
    most 0.1. *)
Theorem state_hint_bonus (companyName : string) (companyState : option string)
    (normalized : SamEntity) (plain hinted : Q) :
  matchScore companyName None normalized = Some plain ->
  matchScore companyName companyState normalized = Some hinted ->
  (plain <= hinted)%Q /\ (hinted <= plain + (1 # 10))%Q.
Proof.
  unfold matchScore.
  destruct (legalBusinessName normalized) as [legal|]; [|discriminate].
  intros [= <-] [= <-].
  set (nameScore := diceCoefficient _ (normalizeCompanyName legal)).
  set (dbaScore := match dbaName normalized with Some _ => _ | None => _ end).
  set (best := Qmax nameScore dbaScore).
  set (stateBonus := match companyState with Some _ => _ | None => _ end).
  assert (Hb : (0 <= stateBonus)%Q /\ (stateBonus <= 1 # 10)%Q).
  { unfold stateBonus. destruct companyState as [st|]; [|split; discriminate].
    repeat match goal with
           | |- context [if ?b then _ else _] => destruct b
           end; split; discriminate. }
  clearbody nameScore dbaScore stateBonus best.
  destruct (Q.min_spec 1 (best + 0)) as [[H1 ->]|[H1 ->]];
    destruct (Q.min_spec 1 (best + stateBonus)) as [[H2 ->]|[H2 ->]]; lra.
Qed.

Lemma state_hint_bonus_witness :
  (8 # 16 <= 96 # 160)%Q /\ (96 # 160 <= (8 # 16) + (1 # 10))%Q.
Proof.
  apply (state_hint_bonus "Delta" (Some "ga"%string)
           (normalizeSamEntity
              (candidate "Delta Airlines" None (Some "GA"%string))));
    vm_compute; reflexivity.
Defined.
(** ** More on the normalizer *)

Section NormalizerWords.

Implicit Types (s cur : list ascii) (c : ascii).

Local Abbreviation nonempty := (fun w : list ascii => w <> []).

Lemma to_lower_word c : is_word (to_lower c) = is_word c.
Proof. destruct c as [[] [] [] [] [] [] [] []]; reflexivity. Qed.

Lemma to_lower_space c : is_space (to_lower c) = is_space c.
Proof. destruct c as [[] [] [] [] [] [] [] []]; reflexivity. Qed.

Lemma toLowerCase_kept s :
  Forall (fun c => is_word c || is_space c = true) s ->
  Forall (fun c => is_word c || is_space c = true) (toLowerCase s).
Proof.
  induction 1 as [|c s Hc _ IH]; simpl; constructor; [|exact IH].
  now rewrite to_lower_word, to_lower_space.
Qed.

Lemma words_from_collapse b cur s :
  (b = true -> cur = []) ->
  filter nonempty (words_from cur (collapse_from b s))
  = filter nonempty (words_from cur s).
Proof.
  revert b cur. induction s as [|c s IH]; intros b cur Hb; simpl; [reflexivity|].
  destruct (is_space c) eqn:Ec.
  - rewrite (space_not_word c Ec).
    destruct b.
    + rewrite (Hb eq_refl). rewrite (filter_cons_False _ []) by tauto.
      now apply IH.
    + simpl. change (is_word space) with false. cbv iota.
      rewrite !filter_cons. now rewrite IH.
  - simpl. destruct (is_word c).
    + apply IH. discriminate.
    + rewrite !filter_cons. rewrite IH by discriminate. reflexivity.
Qed.

Lemma words_collapse s : words (collapse_ws s) = words s.
Proof. apply words_from_collapse. reflexivity. Qed.

Lemma words_trim_start s : words (trim_start s) = words s.
Proof.
  unfold words. induction s as [|c s IH]; simpl; [reflexivity|].
  destruct (is_space c) eqn:Ec; [|reflexivity].
  rewrite (space_not_word c Ec).
  now rewrite (filter_cons_False _ []) by tauto.
Qed.

Lemma words_from_trim_end cur s :
  filter nonempty (words_from cur (trim_end s))
  = filter nonempty (words_from cur s).
Proof.
  revert cur. induction s as [|c s IH]; intros cur; simpl; [reflexivity|].
  destruct (trim_end s) as [|x t] eqn:Et.
  - destruct (is_space c) eqn:Ec.
    + rewrite (space_not_word c Ec). simpl.
      rewrite (filter_cons _ cur (words_from [] s)), <- (IH []). simpl.
      rewrite (filter_cons_False _ []) by tauto.
      rewrite filter_cons. reflexivity.
    + simpl. destruct (is_word c).
      * apply (IH (cur ++ [c])).
      * rewrite !filter_cons. now rewrite <- (IH []).
  - simpl. destruct (is_word c).
    + apply (IH (cur ++ [c])).
    + rewrite !filter_cons. now rewrite <- (IH []).
Qed.

Lemma words_trim s : words (trim s) = words s.
Proof.
  unfold trim, words. rewrite words_from_trim_end. apply words_trim_start.
Qed.

(** For a name without punctuation the normalizer is the suffix pass on
    words. *)
Lemma words_normalize_chars s :
  Forall (fun c => is_word c || is_space c = true) s ->
  words (normalize_chars s)
  = filter (fun w => is_legal_suffix w = false) (words (toLowerCase s)).
Proof.
  intros Hs. unfold normalize_chars.
  rewrite words_trim, words_collapse.
  rewrite strip_punct_fixed.
  - apply words_strip_suffixes.
  - unfold strip_suffixes. apply strip_from_Forall; [constructor|].
    now apply toLowerCase_kept.
Qed.

(** *** Reading the shape off a normalized name *)

Lemma single_spaced_spaces b s c :
  single_spaced b s = true -> c ∈ s -> is_space c = true -> c = space.
Proof.
  revert b. induction s as [|x s IH]; intros b Hs Hin Hc.
  - now apply elem_of_nil in Hin.
  - simpl in Hs. apply elem_of_cons in Hin as [->|Hin].
    + rewrite Hc in Hs. apply andb_true_iff in Hs as [Hs _].
      apply andb_true_iff in Hs as [Hs _]. now apply bool_decide_eq_true_1 in Hs.
    + destruct (is_space x).
      * apply andb_true_iff in Hs as [_ Hs]. now apply (IH true).
      * now apply (IH false).
Qed.

Lemma single_spaced_no_double b pre post :
  single_spaced b (pre ++ space :: space :: post) = false.
Proof.
  revert b. induction pre as [|x pre IH]; intros b; simpl.
  - change (is_space space) with true. cbv iota.
    now rewrite andb_false_r.
  - destruct (is_space x); [|apply IH]. rewrite IH. apply andb_false_r.
Qed.

Lemma trim_end_snoc_space s c : is_space c = true -> trim_end (s ++ [c]) = trim_end s.
Proof.
  intros Hc. induction s as [|x s IH]; simpl; [now rewrite Hc|].
  now rewrite IH.
Qed.

End NormalizerWords.

(** X4.  The shape of a normalized name: every character is a lower-case
    letter, a digit, an underscore or a space; it neither starts nor ends
    with a space; and no two spaces are adjacent. *)
Theorem normalized_name_shape (x : string) :
  let y := chars (normalizeCompanyName x) in
  Forall (fun c => is_lower c || is_digit c || bool_decide (c = "_"%char)
                   || bool_decide (c = space) = true) y
  /\ (forall rest, y <> space :: rest)
  /\ (forall front, y <> front ++ [space])
  /\ (forall pre post, y <> pre ++ space :: space :: post).
Proof.
  cbv zeta. unfold normalizeCompanyName. rewrite chars_text.
  destruct (normalize_chars_normal_form (chars x)) as [H1 H2 H3 H4 H5].
  set (y := normalize_chars (chars x)) in *. clearbody y.
  split; [|split; [|split]].
  - apply Forall_forall. intros c Hc.
    rewrite Forall_forall in H1, H2.
    specialize (H1 c Hc). specialize (H2 c Hc). simpl in H1.
    destruct (is_space c) eqn:Es.
    + rewrite (single_spaced_spaces false y c H3 Hc Es). reflexivity.
    + rewrite orb_false_r in H2. clear -H1 H2.
      destruct c as [[] [] [] [] [] [] [] []]; vm_compute in *; congruence.
  - intros rest ->. simpl in H4. discriminate H4.
  - intros front ->. rewrite trim_end_snoc_space in H5 by reflexivity.
    pose proof (trim_end_length front) as Hlen. rewrite H5 in Hlen.
    rewrite length_app in Hlen. simpl in Hlen. lia.
  - intros pre post ->. now rewrite single_spaced_no_double in H3.
Qed.

(** X5.  For a name made only of letters, digits, underscores and white
    space, the words of the normalized name are the words of the
    lower-cased name that are not legal suffixes, in the same order. *)
Theorem normalized_words (x : string) :
  Forall (fun c => is_word c || is_space c = true) (chars x) ->
  words (chars (normalizeCompanyName x))
  = filter (fun w => is_legal_suffix w = false) (words (toLowerCase (chars x))).
Proof.
  intros Hx. unfold normalizeCompanyName. rewrite chars_text.
  now apply words_normalize_chars.
Qed.

Lemma normalized_words_witness :
  words (chars (normalizeCompanyName "Acme Widget Co"))
  = filter (fun w => is_legal_suffix w = false)
      (words (toLowerCase (chars "Acme Widget Co"))).
Proof.
  apply (normalized_words "Acme Widget Co").
  repeat constructor.
Defined.

(** X6.  For a name made only of letters, digits, underscores and white
    space, normalizing twice gives what normalizing once gives. *)
Theorem normalize_idempotent_without_punctuation (x : string) :
  Forall (fun c => is_word c || is_space c = true) (chars x) ->
  normalizeCompanyName (normalizeCompanyName x) = normalizeCompanyName x.
Proof.
  intros Hx. unfold normalizeCompanyName. rewrite chars_text. f_equal.
  apply normalize_chars_twice. rewrite words_normalize_chars by exact Hx.
  apply Forall_forall. intros w Hw.
  now apply list_elem_of_filter in Hw as [Hw _].
Qed.

Lemma normalize_idempotent_without_punctuation_witness :
  normalizeCompanyName (normalizeCompanyName "Acme Widget Co")
  = normalizeCompanyName "Acme Widget Co".
Proof.
  apply (normalize_idempotent_without_punctuation "Acme Widget Co").
  repeat constructor.
Defined.
(** ** Reading an outcome back *)

Section Outcomes.

Variables (companyName : string) (companyState : option string).

Implicit Types (m x : Match) (ms : list Match) (c : RawEntity).

Local Abbreviation relevant :=
  (fun m : Match => Qle_bool RELEVANCE_FLOOR (m_score m) = true).

Lemma insert_desc_length m ms : length (insert_desc m ms) = S (length ms).
Proof.
  induction ms as [|y ms IH]; simpl; [reflexivity|].
  destruct (Qle_bool (m_score y) (m_score m)); simpl; now rewrite ?IH.
Qed.

Lemma sort_desc_length ms : length (sort_desc ms) = length ms.
Proof.
  induction ms as [|y ms IH]; simpl; [reflexivity|].
  now rewrite insert_desc_length, IH.
Qed.



Lemma filter_relevant_length (cs : list RawEntity) ms :
  Forall2 (fun c m => scoreEntity companyName companyState c = Some m) cs ms ->
  length (filter relevant ms)
  = length (filter (fun c => clears_floor companyName companyState c = true) cs).
Proof.
  induction 1 as [|c m cs ms Hm _ IH]; [reflexivity|].
  apply scoreEntity_spec in Hm as (Hm & _).
  assert (Hc : clears_floor companyName companyState c
               = Qle_bool RELEVANCE_FLOOR (m_score m))
    by (unfold clears_floor; now rewrite Hm).
  destruct (Qle_bool RELEVANCE_FLOOR (m_score m)) eqn:E.
  - rewrite !filter_cons_True by assumption. simpl. now rewrite IH.
  - rewrite !filter_cons_False by congruence. exact IH.
Qed.

Lemma scoreAll_none (cs : list RawEntity) :
  scoreAll companyName companyState cs = None
  <-> exists c, c ∈ cs /\ combinedScore companyName companyState c = None.
Proof.
  induction cs as [|c cs IH]; simpl.
  - split; [discriminate|]. intros (c & Hc & _). now apply elem_of_nil in Hc.
  - unfold scoreEntity. fold (combinedScore companyName companyState c).
    destruct (combinedScore companyName companyState c) as [s|] eqn:Es.
    + destruct (scoreAll companyName companyState cs) as [ms|].
      * split; [discriminate|]. intros (c' & Hc' & Hn).
        apply elem_of_cons in Hc' as [->|Hc']; [congruence|].
        assert (H : @None (list Match) = None) by reflexivity.
        destruct IH as [_ IH]. discriminate IH. eauto.
      * split; [|reflexivity]. intros _.
        destruct IH as [IH _]. destruct (IH eq_refl) as (c' & Hc' & Hn).
        exists c'. split; [now right|exact Hn].
    + split; [|reflexivity]. intros _. exists c. split; [left|exact Es].
Qed.

Lemma Forall2_scored_l (cs : list RawEntity) ms c :
  Forall2 (fun c m => scoreEntity companyName companyState c = Some m) cs ms ->
  c ∈ cs ->
  exists m, m ∈ ms /\ combinedScore companyName companyState c = Some (m_score m).
Proof.
  induction 1 as [|c' m cs ms Hm _ IH]; intros Hin.
  - now apply elem_of_nil in Hin.
  - apply elem_of_cons in Hin as [->|Hin].
    + exists m. split; [left|]. now apply scoreEntity_spec in Hm.
    + destruct (IH Hin) as (m' & Hm' & Hs). exists m'. split; [now right|exact Hs].
Qed.

(** What [classify] computes on a non-empty list that can be scored. *)
Lemma classify_scored (cs : list RawEntity) ms :
  cs <> [] ->
  scoreAll companyName companyState cs = Some ms ->
  classify companyName companyState cs
  = match sort_desc (filter relevant ms) with
    | [] => NoMatch (firstn 5 cs)
    | bestMatch :: _ =>
        if Qle_bool AUTO_LINK (m_score bestMatch)
        then Matched (m_entity bestMatch) (m_raw bestMatch) (m_score bestMatch)
        else Pending (map (fun m => (m_entity m, m_score m))
                        (firstn 5 (sort_desc (filter relevant ms))))
    end.
Proof.
  intros Hne Hms. unfold classify. destruct cs as [|c0 cs]; [congruence|].
  rewrite Hms. reflexivity.
Qed.

Lemma classify_cases (cs : list RawEntity) :
  (cs = [] /\ classify companyName companyState cs = NoMatch [])
  \/ (cs <> [] /\ scoreAll companyName companyState cs = None
      /\ classify companyName companyState cs = Failed)
  \/ (cs <> [] /\ exists ms, scoreAll companyName companyState cs = Some ms).
Proof.
  destruct cs as [|c0 cs]; [left; auto|]. right.
  destruct (scoreAll companyName companyState (c0 :: cs)) as [ms|] eqn:E.
  - right. split; [discriminate|eauto].
  - left. split; [discriminate|]. split; [reflexivity|].
    unfold classify. now rewrite E.
Qed.

End Outcomes.


(** X8.  A [Pending] outcome lists as many candidates as clear the floor,
    up to five, in descending order of score, and every listed score is at
    least 0.5 and below 0.55. *)
Theorem pending_lists_top_five (companyName : string)
    (companyState : option string) (samEntities : list RawEntity)
    (tops : list (SamEntity * Q)) :
  classify companyName companyState samEntities = Pending tops ->
  length tops
  = Nat.min 5 (length (filter (fun c => clears_floor companyName companyState c = true)
                         samEntities))
  /\ descending tops
  /\ Forall (fun p => (RELEVANCE_FLOOR <= snd p)%Q /\ (snd p < AUTO_LINK)%Q) tops.
Proof.
  intros Hcl.
  destruct (classify_cases companyName companyState samEntities)
    as [[_ H]|[(_ & _ & H)|(Hne & ms & Hms)]]; try congruence.
  rewrite (classify_scored _ _ _ ms Hne Hms) in Hcl.
  pose proof (sort_desc_sorted
                (filter (fun m => Qle_bool RELEVANCE_FLOOR (m_score m) = true) ms))
    as Hsorted.
  destruct (sort_desc _) as [|bm rest] eqn:Esort; [discriminate|].
  destruct (Qle_bool AUTO_LINK (m_score bm)) eqn:Eauto; [discriminate|].
  injection Hcl as <-.
  change ((m_entity bm, m_score bm)
          :: map (fun m => (m_entity m, m_score m)) (firstn 4 rest))
    with (map (fun m => (m_entity m, m_score m)) (firstn 5 (bm :: rest))).
  assert (Hlt : (m_score bm < AUTO_LINK)%Q).
  { apply Qnot_le_lt. intros Hle. apply Qle_bool_iff in Hle. congruence. }
  split; [|split].
  - rewrite length_map, length_firstn, <- Esort, sort_desc_length.
    apply scoreAll_Forall2 in Hms.
    now rewrite (filter_relevant_length companyName companyState _ _ Hms).
  - apply (StronglySorted_map (fun m => (m_entity m, m_score m))
             (fun x y => (snd y <= snd x)%Q)).
    now apply StronglySorted_take.
  - apply Forall_forall. intros p Hp.
    apply list_elem_of_In, in_map_iff in Hp as (m & <- & Hm).
    apply list_elem_of_In, subseteq_take in Hm. simpl.
    pose proof (sorted_head_max bm rest m Hsorted Hm) as Hmax.
    rewrite <- Esort in Hm.
    apply sort_desc_elem, list_elem_of_filter in Hm as [Hrel _].
    apply Qle_bool_iff in Hrel. split; [exact Hrel|lra].
Qed.

(** X9.  The classification fails exactly when some retrieved record has
    no legal name, neither in its registration nor at the top level;
    candidates that would match do not save it. *)
Theorem failed_iff_nameless (companyName : string) (companyState : option string)
    (samEntities : list RawEntity) :
  classify companyName companyState samEntities = Failed
  <-> exists c, c ∈ samEntities
        /\ legalBusinessName (normalizeSamEntity c) = None.
Proof.
  assert (Hnone : forall c,
             combinedScore companyName companyState c = None
             <-> legalBusinessName (normalizeSamEntity c) = None).
  { intros c. unfold combinedScore, matchScore.
    destruct (legalBusinessName (normalizeSamEntity c)); split; congruence. }
  destruct (classify_cases companyName companyState samEntities)
    as [[-> H]|[(_ & Hn & H)|(Hne & ms & Hms)]].
  - split; [discriminate|]. intros (c & Hc & _). now apply elem_of_nil in Hc.
  - split; [|intros _; exact H]. intros _.
    apply scoreAll_none in Hn as (c & Hc & Hn). exists c. split; [exact Hc|].
    now apply Hnone.
  - split.
    + rewrite (classify_scored _ _ _ ms Hne Hms).
      destruct (sort_desc _) as [|bm rest]; [discriminate|].
      destruct (Qle_bool AUTO_LINK (m_score bm)); discriminate.
    + intros (c & Hc & Hn). apply Hnone in Hn.
      assert (Hno : scoreAll companyName companyState samEntities = None)
        by (apply scoreAll_none; eauto).
      congruence.
Qed.

(** X10.  A [NoMatch] outcome means that every retrieved candidate scores
    below 0.5; its sample is the first five retrieved records. *)
Theorem no_match_means_all_below_floor (companyName : string)
    (companyState : option string) (samEntities : list RawEntity)
    (sample : list RawEntity) :
  classify companyName companyState samEntities = NoMatch sample ->
  sample = firstn 5 samEntities
  /\ forall c, c ∈ samEntities ->
       exists s, combinedScore companyName companyState c = Some s
                 /\ (s < RELEVANCE_FLOOR)%Q.
Proof.
  intros Hcl.
  destruct (classify_cases companyName companyState samEntities)
    as [[-> H]|[(_ & _ & H)|(Hne & ms & Hms)]]; try congruence.
  - rewrite H in Hcl. injection Hcl as <-. split; [reflexivity|].
    intros c Hc. now apply elem_of_nil in Hc.
  - rewrite (classify_scored _ _ _ ms Hne Hms) in Hcl.
    destruct (sort_desc _) as [|bm rest] eqn:Esort.
    2:{ destruct (Qle_bool AUTO_LINK (m_score bm)); discriminate. }
    injection Hcl as <-. split; [reflexivity|].
    apply (proj1 (sort_desc_nil _)) in Esort.
    intros c Hc. apply scoreAll_Forall2 in Hms.
    destruct (Forall2_scored_l _ _ _ _ c Hms Hc) as (m & Hm & Hs).
    exists (m_score m). split; [exact Hs|].
    apply Qnot_le_lt. intros Hle. apply Qle_bool_iff in Hle.
    now apply (filter_nil_not_elem_of _ _ m Esort Hle).
Qed.


Lemma pending_lists_top_five_witness :
  length [(normalizeSamEntity (candidate "Delta Airlines" None None), (8 # 16)%Q)]
  = Nat.min 5 (length (filter (fun c => clears_floor "Delta" None c = true)
                         [candidate "Delta Airlines" None None;
                          candidate "Zebra Holdings" None None]))
  /\ descending
       [(normalizeSamEntity (candidate "Delta Airlines" None None), (8 # 16)%Q)]
  /\ Forall (fun p => (RELEVANCE_FLOOR <= snd p)%Q /\ (snd p < AUTO_LINK)%Q)
       [(normalizeSamEntity (candidate "Delta Airlines" None None), (8 # 16)%Q)].
Proof.
  apply (pending_lists_top_five "Delta" None
           [candidate "Delta Airlines" None None;
            candidate "Zebra Holdings" None None]).
  vm_compute. reflexivity.
Defined.

Lemma no_match_means_all_below_floor_witness :
  [candidate "Zebra Holdings" None None]
  = firstn 5 [candidate "Zebra Holdings" None None]
  /\ forall c, c ∈ [candidate "Zebra Holdings" None None] ->
       exists s, combinedScore "Honeywell" None c = Some s
                 /\ (s < RELEVANCE_FLOOR)%Q.
Proof.
  apply (no_match_means_all_below_floor "Honeywell" None
           [candidate "Zebra Holdings" None None]).
  vm_compute. reflexivity.
Defined.
(** ** The result cache *)

Section Cache.

Context (E : Env).

Implicit Types (w : World E) (t : list Event).

Lemma bind_pure {A B} (m : M E A) (f : A -> M E B) w a w1 :
  m w = (Returned a, [], w1) -> (m ≫= f) w = f a w1.
Proof.
  intros H. unfold mbind, M_bind. rewrite H.
  destruct (f a w1) as [[r t] w2]. reflexivity.
Qed.

Lemma call_run {A} (f : BState E -> A * BState E) w :
  call E f w = (Returned (fst (f (outside w))), [],
                Build_World E (snd (f (outside w))) (searchCache w)).
Proof. unfold call. now destruct (f (outside w)). Qed.

Lemma searchSamByName_eq name state domain w :
  searchSamByName E name state domain w =
  match searchCache w !! cacheKey name state domain with
  | Some (data, timestamp) =>
      (now ← call E (Date_now E);
       if now - timestamp <? CACHE_TTL then mret data
       else retrieve_and_store E name state domain) w
  | None => retrieve_and_store E name state domain w
  end.
Proof.
  unfold searchSamByName. cbv zeta. fold (cacheKey name state domain).
  rewrite (bind_pure _ _ w (searchCache w !! cacheKey name state domain) w)
    by reflexivity.
  destruct (searchCache w !! cacheKey name state domain) as [[data ts]|].
  - rewrite (bind_pure _ _ w
               (fst (Date_now E (outside w)) - ts <? CACHE_TTL)
               (Build_World E (snd (Date_now E (outside w))) (searchCache w))).
    + rewrite (bind_pure _ _ w _ _ (call_run (Date_now E) w)).
      destruct (fst (Date_now E (outside w)) - ts <? CACHE_TTL); reflexivity.
    + rewrite (bind_pure _ _ w _ _ (call_run (Date_now E) w)). reflexivity.
  - rewrite (bind_pure _ _ w false w) by reflexivity. reflexivity.
Qed.

(** The retrieval leaves the cache alone. *)
Lemma samFetch_cache q w r t w' :
  samFetch E q w = (r, t, w') -> searchCache w' = searchCache w.
Proof.
  rewrite samFetch_eq.
  destruct (fetch E q (outside w)) as [[|r1] b1]; [now intros [= <- <- <-]|].
  destruct (status r1 =? 429).
  - destruct (fetch E q b1) as [res2 b2]. now intros [= <- <- <-].
  - now intros [= <- <- <-].
Qed.

Lemma stage_cache applies q data w r t w' :
  stage E applies q data w = (r, t, w') -> searchCache w' = searchCache w.
Proof.
  unfold stage. destruct (no_results data && applies).
  - intros H. apply bind_run in H as [(u & t1 & w1 & t2 & Hd & Hf & _)|[Hd _]];
      [|discriminate Hd].
    injection Hd as _ _ <-. now apply samFetch_cache in Hf.
  - now intros [= <- <- <-].
Qed.

Lemma searchSamApi_cache name state domain w r t w' :
  searchSamApi E name state domain w = (r, t, w') ->
  searchCache w' = searchCache w.
Proof.
  rewrite searchSamApi_staged. intros H.
  apply bind_run in H as [(d1 & t1 & w1 & ta & H1 & H & _)|[H1 _]];
    [|now apply samFetch_cache in H1].
  apply samFetch_cache in H1. rewrite <- H1. clear H1.
  apply bind_run in H as [(d2 & t2 & w2 & tb & H2 & H & _)|[H2 _]];
    [|now apply stage_cache in H2].
  apply stage_cache in H2. rewrite <- H2. clear H2.
  apply bind_run in H as [(d3 & t3 & w3 & tc & H3 & H & _)|[H3 _]];
    [|now apply stage_cache in H3].
  apply stage_cache in H3. rewrite <- H3. clear H3.
  apply bind_run in H as [(d4 & t4 & w4 & td & H4 & H & _)|[H4 _]];
    [|now apply stage_cache in H4].
  apply stage_cache in H4. rewrite <- H4. now injection H as _ _ <-.
Qed.

(** The local search: it returns, it asks the table once or twice, the
    second time only with the plain query after an error of the first,
    and it sends nothing to the registry. *)
Lemma searchSamLocalDb_run name state domain w :
  exists l t w',
    searchSamLocalDb E name state domain w = (Returned l, t, w')
    /\ searchCache w' = searchCache w
    /\ (t = [RpcCalled (normalizeCompanyName name) (as_truthy state)
               (as_truthy domain)]
        \/ (t = [RpcCalled (normalizeCompanyName name) (as_truthy state)
                   (as_truthy domain);
                 TableQueried (normalizeCompanyName name) (as_truthy state)]
            /\ fst (rpc E (normalizeCompanyName name) (as_truthy state)
                      (as_truthy domain) (outside w)) = DbError))
    /\ (fst (rpc E (normalizeCompanyName name) (as_truthy state)
               (as_truthy domain) (outside w)) = DbThrows -> l = []).
Proof.
  unfold searchSamLocalDb, try_catch, do_rpc, searchSamLocalDbBasic.
  unfold mbind, M_bind, emit, call, throw, mret, M_ret. simpl.
  destruct (rpc E _ _ _ (outside w)) as [[| |[[|row rows]|]] b1]; simpl;
    try (do 3 eexists; split;
         [reflexivity
         |split; [reflexivity|split; [left; reflexivity|congruence]]]).
  destruct (query_table E _ _ b1) as [[| |data] b2]; simpl;
    do 3 eexists;
    (split; [reflexivity|split; [reflexivity|split; [right; auto|congruence]]]).
Qed.

Lemma retrieve_cache name state domain w r t w' :
  retrieve E name state domain w = (r, t, w') ->
  searchCache w' = searchCache w.
Proof.
  unfold retrieve. cbv zeta. destruct (USE_LOCAL_DB E).
  - intros H. apply bind_run in H as [(l & t1 & w1 & t2 & Hl & H & _)|[Hl _]].
    + destruct (searchSamLocalDb_run name (normalizeStateCode state) domain w)
        as (l' & t' & w1' & Hrun & Hc & _ & _).
      rewrite Hrun in Hl. injection Hl as <- <- <-. rewrite <- Hc.
      destruct ((length l' =? 0)%nat && truthy (SAM_API_KEY E)).
      * now apply searchSamApi_cache in H.
      * now injection H as _ _ <-.
    + destruct (searchSamLocalDb_run name (normalizeStateCode state) domain w)
        as (l' & t' & w1' & Hrun & _). congruence.
  - apply searchSamApi_cache.
Qed.

(** The runs of the miss branch. *)
Lemma retrieve_and_store_run name state domain w r t w' :
  retrieve_and_store E name state domain w = (r, t, w') ->
  exists w1,
    retrieve E name state domain w = (r, t, w1)
    /\ match r with
       | Returned results =>
           w' = Build_World E (snd (Date_now E (outside w1)))
                  (<[cacheKey name state domain
                     := (results, fst (Date_now E (outside w1)))]>
                     (searchCache w))
       | Threw => w' = w1
       end.
Proof.
  unfold retrieve_and_store. intros H.
  apply bind_run in H as [(l & t1 & w1 & t2 & Hr & H & ->)|[Hr ->]].
  - rewrite (bind_pure _ _ w1 _ _ (call_run (Date_now E) w1)) in H.
    unfold set_cached, mbind, M_bind, mret, M_ret in H. simpl in H.
    injection H as <- <- <-. exists w1. rewrite app_nil_r.
    split; [exact Hr|]. now rewrite (retrieve_cache _ _ _ _ _ _ _ Hr).
  - exists w'. auto.
Qed.

End Cache.

(** X11.  After a call of [searchSamByName] that returned, the cache holds
    the returned list under the key of the query; a second call with the
    same arguments, made while the clock reads less than five minutes
    past the stored time, returns the same list and contacts no backend. *)
Theorem cache_memoizes (E : Env) (name : string) (state domain : option string)
    (w w1 : World E) (results : list RawEntity) (t : list Event) :
  searchSamByName E name state domain w = (Returned results, t, w1) ->
  exists timestamp,
    searchCache w1 !! cacheKey name state domain = Some (results, timestamp)
    /\ (fst (Date_now E (outside w1)) - timestamp < CACHE_TTL ->
        searchSamByName E name state domain w1
        = (Returned results, [],
           Build_World E (snd (Date_now E (outside w1))) (searchCache w1))).
Proof.
  intros Hrun.
  assert (Hentry : exists timestamp,
             searchCache w1 !! cacheKey name state domain
             = Some (results, timestamp)).
  { rewrite searchSamByName_eq in Hrun.
    destruct (searchCache w !! cacheKey name state domain) as [[data ts]|] eqn:Ec.
    - rewrite (bind_pure E _ _ w _ _ (call_run E (Date_now E) w)) in Hrun.
      destruct (fst (Date_now E (outside w)) - ts <? CACHE_TTL).
      + injection Hrun as <- _ <-. simpl. eauto.
      + apply retrieve_and_store_run in Hrun as (w0 & _ & ->). simpl.
        rewrite lookup_insert_eq. eauto.
    - apply retrieve_and_store_run in Hrun as (w0 & _ & ->). simpl.
      rewrite lookup_insert_eq. eauto. }
  destruct Hentry as (ts & Hts). exists ts. split; [exact Hts|].
  intros Hfresh. rewrite searchSamByName_eq, Hts.
  rewrite (bind_pure E _ _ w1 _ _ (call_run E (Date_now E) w1)).
  replace (fst (Date_now E (outside w1)) - ts <? CACHE_TTL) with true
    by (symmetry; now apply Z.ltb_lt).
  reflexivity.
Qed.

Lemma cache_memoizes_witness :
  let E := scripted None false in
  let c := candidate "Honeywell International Inc" None None in
  let run := searchSamByName E "Honeywell" None None (start None false [found [c]]) in
  exists timestamp,
    searchCache (snd run) !! cacheKey "Honeywell" None None
    = Some ([c], timestamp)
    /\ (fst (Date_now E (outside (snd run))) - timestamp < CACHE_TTL ->
        searchSamByName E "Honeywell" None None (snd run)
        = (Returned [c], [],
           Build_World E (snd (Date_now E (outside (snd run))))
             (searchCache (snd run)))).
Proof.
  cbv zeta.
  apply (cache_memoizes (scripted None false) "Honeywell" None None
           (start None false
              [found [candidate "Honeywell International Inc" None None]])
           _ [candidate "Honeywell International Inc" None None]
           (snd (fst (searchSamByName (scripted None false) "Honeywell" None None
                        (start None false
                           [found [candidate "Honeywell International Inc"
                                     None None]]))))).
  vm_compute. reflexivity.
Defined.

(** X12.  With the local table switched off, a call that finds no entry,
    or only one that is five minutes old or older, asks the registry,
    starting with strategy 1 on the normalized state; if it returns, the
    list is stored under the key with the time read after the retrieval,
    and if it throws the cache is as before. *)
Theorem cache_miss_asks_registry (E : Env) (name : string)
    (state domain : option string) (w w1 : World E)
    (r : Result (list RawEntity)) (t : list Event) :
  USE_LOCAL_DB E = false ->
  no_fresh_entry w (cacheKey name state domain) ->
  searchSamByName E name state domain w = (r, t, w1) ->
  (exists rest,
      queries t = strategy1 name (normalizeStateCode state) :: rest)
  /\ match r with
     | Returned results =>
         exists now,
           searchCache w1
           = <[cacheKey name state domain := (results, now)]> (searchCache w)
     | Threw => searchCache w1 = searchCache w
     end.
Proof.
  intros Hlocal Hfresh Hrun. rewrite searchSamByName_eq in Hrun.
  unfold no_fresh_entry in Hfresh.
  assert (Hmiss : forall w0,
             searchCache w0 = searchCache w ->
             retrieve_and_store E name state domain w0 = (r, t, w1) ->
             (exists rest,
                 queries t = strategy1 name (normalizeStateCode state) :: rest)
             /\ match r with
                | Returned results =>
                    exists now,
                      searchCache w1
                      = <[cacheKey name state domain := (results, now)]>
                          (searchCache w)
                | Threw => searchCache w1 = searchCache w
                end).
  { intros w0 Hc H. apply retrieve_and_store_run in H as (w2 & Hret & Hw).
    pose proof (retrieve_cache E _ _ _ _ _ _ _ Hret) as Hc2.
    unfold retrieve in Hret. rewrite Hlocal in Hret. cbv zeta in Hret.
    destruct (searchSamApi_run E _ _ _ _ _ _ _ Hret)
      as (k1 & k2 & k3 & k4 & Hq & Hb & _).
    split.
    - destruct k1 as [|k1]; [lia|]. rewrite Hq. simpl. eauto.
    - destruct r as [results|]; subst w1; simpl.
      + rewrite Hc. eauto.
      + congruence. }
  destruct (searchCache w !! cacheKey name state domain) as [[data ts]|].
  - rewrite (bind_pure E _ _ w _ _ (call_run E (Date_now E) w)) in Hrun.
    replace (fst (Date_now E (outside w)) - ts <? CACHE_TTL) with false in Hrun
      by (symmetry; now apply Z.ltb_ge).
    exact (Hmiss (Build_World E (snd (Date_now E (outside w))) (searchCache w))
             eq_refl Hrun).
  - exact (Hmiss w eq_refl Hrun).
Qed.

Lemma cache_miss_asks_registry_witness :
  let E := scripted None false in
  let run := searchSamByName E "Honeywell" (Some "new jersey"%string) None
               (start None false []) in
  (exists rest,
      queries (snd (fst run))
      = strategy1 "Honeywell" (normalizeStateCode (Some "new jersey"%string))
        :: rest)
  /\ match fst (fst run) with
     | Returned results =>
         exists now,
           searchCache (snd run)
           = <[cacheKey "Honeywell" (Some "new jersey"%string) None
               := (results, now)]> (searchCache (start None false []))
     | Threw => searchCache (snd run) = searchCache (start None false [])
     end.
Proof.
  cbv zeta.
  apply (cache_miss_asks_registry (scripted None false) "Honeywell"
           (Some "new jersey"%string) None (start None false [])).
  - reflexivity.
  - exact I.
  - now destruct (searchSamByName _ _ _ _ _) as [[r t] w1].
Defined.

(** X13.  The local search never throws and never contacts the registry;
    it calls the similarity function of the table once, and the plain
    table query only after that call reported an error; when the first
    call throws, the result is the empty list. *)
Theorem local_search_is_contained (E : Env) (name : string)
    (state domain : option string) (w : World E) :
  exists l t w',
    searchSamLocalDb E name state domain w = (Returned l, t, w')
    /\ queries t = []
    /\ (t = [RpcCalled (normalizeCompanyName name) (as_truthy state)
               (as_truthy domain)]
        \/ (t = [RpcCalled (normalizeCompanyName name) (as_truthy state)
                   (as_truthy domain);
                 TableQueried (normalizeCompanyName name) (as_truthy state)]
            /\ fst (rpc E (normalizeCompanyName name) (as_truthy state)
                      (as_truthy domain) (outside w)) = DbError))
    /\ (fst (rpc E (normalizeCompanyName name) (as_truthy state)
               (as_truthy domain) (outside w)) = DbThrows -> l = []).
Proof.
  destruct (searchSamLocalDb_run E name state domain w)
    as (l & t & w' & Hrun & _ & Ht & Hthrows).
  exists l, t, w'. split; [exact Hrun|]. split; [|split; assumption].
  destruct Ht as [->|[-> _]]; reflexivity.
Qed.

(** X14.  With the local table switched on, the registry is asked only
    when the local search found nothing and an API key is configured. *)
Theorem registry_is_the_fallback (E : Env) (name : string)
    (state domain : option string) (w w1 : World E)
    (r : Result (list RawEntity)) (t : list Event) :
  USE_LOCAL_DB E = true ->
  retrieve E name state domain w = (r, t, w1) ->
  queries t <> [] ->
  truthy (SAM_API_KEY E) = true
  /\ exists tl wl,
       searchSamLocalDb E name (normalizeStateCode state) domain w
       = (Returned [], tl, wl).
Proof.
  intros Hlocal Hrun Hq. unfold retrieve in Hrun. rewrite Hlocal in Hrun.
  cbv zeta in Hrun.
  destruct (searchSamLocalDb_run E name (normalizeStateCode state) domain w)
    as (l & tl & wl & Hl & _ & Htl & _).
  assert (Hquiet : queries tl = [])
    by (destruct Htl as [->|[-> _]]; reflexivity).
  apply bind_run in Hrun as [(l' & t1 & w' & t2 & Hl' & Hrun & ->)|[Hl' _]];
    [|congruence].
  rewrite Hl in Hl'. injection Hl' as <- <- <-.
  destruct ((length l =? 0)%nat && truthy (SAM_API_KEY E)) eqn:Eg.
  - apply andb_true_iff in Eg as [Hlen Hkey]. split; [exact Hkey|].
    apply Nat.eqb_eq in Hlen. destruct l; [eauto|discriminate].
  - injection Hrun as _ <- _. rewrite app_nil_r in Hq. contradiction.
Qed.

Lemma registry_is_the_fallback_witness :
  truthy (SAM_API_KEY (scripted None true)) = true
  /\ exists tl wl,
       searchSamLocalDb (scripted None true) "Honeywell"
         (normalizeStateCode None) None (start None true [])
       = (Returned [], tl, wl).
Proof.
  apply (registry_is_the_fallback (scripted None true) "Honeywell" None None
           (start None true [])
           (snd (retrieve (scripted None true) "Honeywell" None None
                   (start None true [])))
           (fst (fst (retrieve (scripted None true) "Honeywell" None None
                        (start None true []))))
           (snd (fst (retrieve (scripted None true) "Honeywell" None None
                        (start None true []))))).
  - reflexivity.
  - now destruct (retrieve _ _ _ _ _) as [[r t] w1].
  - vm_compute. discriminate.
Defined.
(** ** The whole resolution, and its cost *)

Section Budget.

Context (E : Env).

Implicit Types (w : World E) (t : list Event).

Lemma paused_app t1 t2 : paused (t1 ++ t2) = paused t1 + paused t2.
Proof.
  induction t1 as [|e t1 IH]; simpl; [reflexivity|].
  destruct e; rewrite IH; lia.
Qed.

Lemma samFetch_paused q w r t w' :
  samFetch E q w = (r, t, w') -> 0 <= paused t <= 2000.
Proof.
  rewrite samFetch_eq.
  destruct (fetch E q (outside w)) as [[|r1] b1];
    [intros [= <- <- <-]; simpl; lia|].
  destruct (status r1 =? 429).
  - destruct (fetch E q b1) as [res2 b2]. intros [= <- <- <-]. simpl. lia.
  - intros [= <- <- <-]. simpl. lia.
Qed.

Lemma stage_paused applies q data w r t w' :
  stage E applies q data w = (r, t, w') -> 0 <= paused t <= 2500.
Proof.
  unfold stage. destruct (no_results data && applies).
  - intros H. apply bind_run in H as [(u & t1 & w1 & t2 & Hd & Hf & ->)|[Hd _]];
      [|discriminate Hd].
    injection Hd as _ <- _. apply samFetch_paused in Hf. simpl. lia.
  - intros [= <- <- <-]. simpl. lia.
Qed.

Lemma searchSamApi_paused name state domain w r t w' :
  searchSamApi E name state domain w = (r, t, w') -> 0 <= paused t <= 9500.
Proof.
  rewrite searchSamApi_staged. intros H.
  apply bind_run in H as [(d1 & t1 & w1 & ta & H1 & H & ->)|[H1 _]];
    [|apply samFetch_paused in H1; lia].
  apply samFetch_paused in H1. rewrite paused_app.
  apply bind_run in H as [(d2 & t2 & w2 & tb & H2 & H & ->)|[H2 _]];
    [|apply stage_paused in H2; lia].
  apply stage_paused in H2. rewrite paused_app.
  apply bind_run in H as [(d3 & t3 & w3 & tc & H3 & H & ->)|[H3 _]];
    [|apply stage_paused in H3; lia].
  apply stage_paused in H3. rewrite paused_app.
  apply bind_run in H as [(d4 & t4 & w4 & td & H4 & H & ->)|[H4 _]];
    [|apply stage_paused in H4; lia].
  apply stage_paused in H4. rewrite paused_app.
  injection H as _ <- _. simpl. lia.
Qed.

End Budget.

(** X15.  A retrieval from the registry sends at most eight requests and
    spends at most 9.5 seconds in its pauses. *)
Theorem retrieval_budget (E : Env) (name : string) (state domain : option string)
    (w : World E) :
  let t := snd (fst (searchSamApi E name state domain w)) in
  (length (queries t) <= 8)%nat /\ 0 <= paused t <= 9500.
Proof.
  cbv zeta.
  destruct (searchSamApi E name state domain w) as [[r t] w'] eqn:Hrun.
  simpl. split.
  - destruct (searchSamApi_run E _ _ _ _ _ _ _ Hrun)
      as (k1 & k2 & k3 & k4 & Hq & Hb & _).
    rewrite Hq, !length_app, !repeat_length. lia.
  - now apply searchSamApi_paused in Hrun.
Qed.

(** X16.  [processCompanyCreation] never throws: whatever the
    collaborators do, it ends with an outcome; and when the company cannot
    be read from the CRM the outcome is [Failed] and no retrieval is
    attempted. *)
Theorem processCompanyCreation_contained (E : Env) (companyId portalId : string)
    (w : World E) :
  exists outcome t w',
    processCompanyCreation E companyId portalId w = (Returned outcome, t, w')
    /\ (fst (getCompanyFromHubSpot E companyId portalId (outside w)) = None ->
        outcome = Failed /\ t = []).
Proof.
  unfold processCompanyCreation, try_catch.
  match goal with
  | |- context [match ?m w with _ => _ end] =>
      destruct (m w) as [[[o|] t] w1] eqn:Hrun
  end.
  - exists o, t, w1. split; [reflexivity|]. intros Hnone.
    rewrite (bind_pure E _ _ w _ _ (call_run E _ w)) in Hrun.
    rewrite Hnone in Hrun. discriminate Hrun.
  - exists Failed, (t ++ []), w1. split; [reflexivity|]. intros Hnone.
    rewrite (bind_pure E _ _ w _ _ (call_run E _ w)) in Hrun.
    rewrite Hnone in Hrun. injection Hrun as <- _. auto.
Qed.

Lemma processCompanyCreation_contained_witness :
  exists outcome t w',
    processCompanyCreation unavailable "1" "2" (Build_World unavailable tt ∅)
    = (Returned outcome, t, w')
    /\ outcome = Failed /\ t = [].
Proof.
  destruct (processCompanyCreation_contained unavailable "1" "2"
              (Build_World unavailable tt ∅)) as (o & t & w' & H & Himp).
  exists o, t, w'. split; [exact H|]. apply Himp. reflexivity.
Defined.

(** X20.  What a retrieval returns is what the registry sent last: a
    non-empty result is the [entityData] of the last response, which had a
    2xx status; an empty result means that no response carried records. *)
Theorem retrieval_returns_last_response (E : Env) (name : string)
    (state domain : option string) (w w' : World E) (l : list RawEntity)
    (t : list Event) :
  searchSamApi E name state domain w = (Returned l, t, w') ->
  (l <> [] -> ends_with l (fetches t))
  /\ (l = [] -> quiet (fetches t)).
Proof.
  intros Hrun.
  destruct (searchSamApi_run E _ _ _ _ _ _ _ Hrun)
    as (k1 & k2 & k3 & k4 & _ & _ & _ & _ & _ & _ & _ & _ & Hend).
  split.
  - intros Hl. destruct l; [congruence|exact Hend].
  - intros ->. exact Hend.
Qed.

Lemma retrieval_returns_last_response_witness :
  let c := candidate "Honeywell International Inc" None None in
  let run := searchSamApi (scripted None false) "Honeywell" None None
               (start None false [failed 500; found [c]]) in
  ([c] <> [] -> ends_with [c] (fetches (snd (fst run))))
  /\ ([c] = [] -> quiet (fetches (snd (fst run)))).
Proof.
  cbv zeta.
  apply (retrieval_returns_last_response (scripted None false) "Honeywell"
           None None
           (start None false
              [failed 500;
               found [candidate "Honeywell International Inc" None None]])
           (start None false [])).
  vm_compute. reflexivity.
Defined.
(** ** The handler's loop *)

Section Batch.

Implicit Types (events : list (HubEvent * (Z * Z))) (m : gmap string Z).

Lemma shouldProcess_accepts T k tc tm m :
  tc < T + DEDUP_TTL ->
  fst (shouldProcess k tc tm m) = true -> ~ marked_since T m k.
Proof.
  intros Hw. unfold shouldProcess. intros H (t & Ht & Hpos & HT).
  rewrite Ht in H.
  replace (t =? 0) with false in H by (symmetry; apply Z.eqb_neq; lia).
  replace (tc - t <? DEDUP_TTL) with true in H by (symmetry; apply Z.ltb_lt; lia).
  discriminate H.
Qed.

Lemma shouldProcess_marks T k tc tm m :
  0 < tm -> T <= tm ->
  fst (shouldProcess k tc tm m) = true ->
  marked_since T (snd (shouldProcess k tc tm m)) k.
Proof.
  intros Hpos HT. unfold shouldProcess.
  destruct (m !! k) as [t|]; [destruct (negb (t =? 0) && _)|];
    simpl; try discriminate; intros _; exists tm;
    rewrite lookup_insert_eq; auto.
Qed.

Lemma shouldProcess_keeps T k tc tm m k' :
  marked_since T m k' -> 0 < tm -> T <= tm ->
  marked_since T (snd (shouldProcess k tc tm m)) k'.
Proof.
  intros (t & Ht & Hpos & HT) Htm HTm. unfold shouldProcess.
  assert (Hins : marked_since T (<[k := tm]> m) k').
  { destruct (decide (k = k')) as [->|Hne].
    - exists tm. rewrite lookup_insert_eq. auto.
    - exists t. rewrite lookup_insert_ne by exact Hne. auto. }
  destruct (m !! k) as [t0|]; [destruct (negb (t0 =? 0) && _)|]; simpl;
    auto. exists t. auto.
Qed.

Lemma schedule_once T events m :
  Forall (in_window T) events ->
  NoDup (map key_of (fst (schedule events m)))
  /\ forall k, k ∈ map key_of (fst (schedule events m)) -> ~ marked_since T m k.
Proof.
  intros Hall. revert m. induction Hall as [|[e [tc tm]] events Hw _ IH]; intros m.
  - simpl. split; [constructor|]. intros k Hk. now apply elem_of_nil in Hk.
  - destruct Hw as (Hpos & HT & Hc). simpl in Hpos, HT, Hc.
    cbn [schedule]. destruct (wanted e); [|apply IH].
    destruct (shouldProcess (dedupKey e) tc tm m) as [go marked] eqn:Esp.
    destruct (IH marked) as [Hnd Hfresh].
    destruct (schedule events marked) as [started final]. cbn [fst] in *.
    assert (Hgo : fst (shouldProcess (dedupKey e) tc tm m) = go)
      by now rewrite Esp.
    assert (Hmk : snd (shouldProcess (dedupKey e) tc tm m) = marked)
      by now rewrite Esp.
    assert (Hold : forall k, k ∈ map key_of started -> ~ marked_since T m k).
    { intros k Hk Hm. apply (Hfresh k Hk). rewrite <- Hmk.
      now apply shouldProcess_keeps. }
    destruct go; [|split; assumption].
    cbn [map]. change (key_of (pretty (objectId e), pretty (portalId e)))
      with (dedupKey e).
    split.
    + constructor; [|exact Hnd]. intros Hin.
      apply (Hfresh _ Hin). rewrite <- Hmk.
      now apply shouldProcess_marks.
    + intros k Hk. apply elem_of_cons in Hk as [->|Hk]; [|now apply Hold].
      now apply (shouldProcess_accepts T _ tc tm).
Qed.

End Batch.

(** X17.  When the clock readings of a request's loop are positive and lie
    within one window of less than thirty seconds, no two of the calls of
    [processCompanyCreation] it starts are for the same portal and
    company, however often the events repeat. *)
Theorem batch_starts_each_company_once (T : Z)
    (events : list (HubEvent * (Z * Z))) (recentlyProcessed : gmap string Z) :
  Forall (in_window T) events ->
  NoDup (map key_of (fst (schedule events recentlyProcessed)))
  /\ NoDup (fst (schedule events recentlyProcessed)).
Proof.
  intros Hall. destruct (schedule_once T events recentlyProcessed Hall) as [H _].
  split; [exact H|]. apply (NoDup_fmap_1 key_of). exact H.
Qed.

Lemma batch_starts_each_company_once_witness :
  let created := {| subscriptionType := "object.creation"; objectId := 7;
                    portalId := 42; propertyName := None |} in
  let renamed := {| subscriptionType := "object.propertyChange"; objectId := 7;
                    portalId := 42; propertyName := Some "name"%string |} in
  let events := [(created, (1000, 1001)); (renamed, (1002, 1003));
                 (created, (1004, 1005))] in
  NoDup (map key_of (fst (schedule events ∅)))
  /\ NoDup (fst (schedule events ∅)).
Proof.
  cbv zeta.
  apply (batch_starts_each_company_once 1000).
  repeat constructor; vm_compute; congruence.
Defined.
(** ** State codes *)

Section StateCodes.

Implicit Types (s : list ascii) (c : ascii).







Lemma table_facts :
  map_Forall (fun k v => (3 <= length (chars k))%nat
                         /\ truthy (Some v) = true
                         /\ normalizeStateCode (Some v) = Some v)
    STATE_ABBREVIATIONS.
Proof. apply (bool_decide_unpack _). vm_compute. exact I. Qed.

Lemma length_toLowerCase s : length (toLowerCase s) = length s.
Proof. apply length_map. Qed.


End StateCodes.



(** X19.  A full state name is recognised whatever its letter case and the
    white space around it: when the trimmed, lower-cased state is a key of
    the table, the result is the abbreviation stored under that key. *)
Theorem state_names_ignore_case_and_padding (st stateName abbrev : string) :
  STATE_ABBREVIATIONS !! stateName = Some abbrev ->
  text (toLowerCase (trim (chars st))) = stateName ->
  normalizeStateCode (Some st) = Some abbrev.
Proof.
  intros Hlook Hname.
  destruct (table_facts _ _ Hlook) as (Hlen & Htruthy & _).
  assert (Hl : length (trim (chars st)) = length (chars stateName)).
  { rewrite <- Hname, chars_text. symmetry. apply length_toLowerCase. }
  unfold normalizeStateCode.
  assert (Hst : as_truthy (Some st) = Some st).
  { unfold as_truthy. destruct st as [|c st]; [|reflexivity].
    simpl in Hl. lia. }
  rewrite Hst.
  replace (length (trim (chars st)) =? 2)%nat with false
    by (symmetry; apply Nat.eqb_neq; lia).
  now rewrite Hname, Hlook, Htruthy.
Qed.

Lemma state_names_ignore_case_and_padding_witness :
  normalizeStateCode (Some "  nEw YoRk "%string) = Some "NY"%string.
Proof.
  apply (state_names_ignore_case_and_padding "  nEw YoRk " "new york" "NY");
    vm_compute; reflexivity.
Defined.
